(** * Electrical Load Dashboard: validator, power/cost calculator, history store

    A shallow embedding of the dashboard's computational core.

    Numbers.  JavaScript numbers are IEEE 754 binary64 values; they are
    embedded as Rocq's primitive [float], whose [mul], [div], [sub],
    [sqrt], [ltb], [leb] and [eqb] are the same binary64 operations (round
    to nearest, ties to even).  [Math.sqrt] is taken as the correctly
    rounded square root and [Math.pow(x, 2)] as the correctly rounded
    product [x * x].  A decimal literal denotes the nearest binary64
    value, as it does in JavaScript.

    Inputs.  The functions that read the page start from what [parseFloat]
    and [parseInt] return for the six fields ([Input.ParsedFields]); the
    clock readings of [Date.now()] and the answer to [confirm] are
    arguments.

    Storage.  [localStorage] is a finite map from keys to stored values.
    The text written by [JSON.stringify] is represented by the array it
    encodes, so [JSON.parse] after [JSON.stringify] is the identity; how
    JSON writes numbers (NaN and the infinities as [null], -0 as [0]) is
    outside the model.  A thrown exception is [None]. *)

From Stdlib Require Import Floats ZArith Bool.
From stdpp Require Import gmap strings list fin_maps pretty.

Set Warnings "-inexact-float".

(** ** JavaScript primitives used by the program *)

Module JS.

(** [isNaN(x)] on a number. *)
Definition isNaN (x : float) : bool := PrimFloat.is_nan x.

(** [x === y] on two numbers: IEEE equality, false on NaN, true on
    zeros of either sign. *)
Definition strict_eq (x y : float) : bool := (x =? y)%float.

(** Truthiness of a number: NaN, +0 and -0 are falsy. *)
Definition truthy (x : float) : bool := negb (isNaN x || (x =? 0)%float).

(** [x || d] on numbers. *)
Definition or_default (x d : float) : float := if truthy x then x else d.

(** [x > y] on numbers. *)
Definition gt (x y : float) : bool := (y <? x)%float.

(** [Math.sqrt]. *)
Definition Math_sqrt (x : float) : float := PrimFloat.sqrt x.

(** [Math.max(x, y)]: NaN when either argument is NaN, and +0 is larger
    than -0. *)
Definition Math_max (x y : float) : float :=
  if isNaN x || isNaN y then PrimFloat.nan
  else if (x <? y)%float then y
  else if (y <? x)%float then x
  else if PrimFloat.get_sign x then y else x.

(** [Math.pow(x, 2)], taken as the correctly rounded square. *)
Definition Math_pow2 (x : float) : float := (x * x)%float.

End JS.

(** ** Utility functions (the [electrical] module) *)

Module Electrical.

Definition calculatePower (voltage current : float) : float :=
  (voltage * current)%float.

Definition calculateApparentPower (voltage current : float) : float :=
  (voltage * current)%float.

Definition calculatePowerFactor (realPower apparentPower : float) : float :=
  if JS.strict_eq apparentPower 0 then 0%float
  else (realPower / apparentPower)%float.

Definition wattsToKilowatts (watts : float) : float := (watts / 1000)%float.

Definition kilowattsToWatts (kilowatts : float) : float :=
  (kilowatts * 1000)%float.

Definition calculateReactivePower (apparentPower realPower : float) : float :=
  JS.Math_sqrt
    (JS.Math_max 0 (JS.Math_pow2 apparentPower - JS.Math_pow2 realPower)%float).

Definition calculateThreePhasePower (voltage current powerFactor : float) : float :=
  let sqrt3 := JS.Math_sqrt 3 in
  (sqrt3 * voltage * current * powerFactor)%float.

Definition calculateSinglePhasePower (voltage current powerFactor : float) : float :=
  (voltage * current * powerFactor)%float.

End Electrical.

(** ** Data model of the application *)

Module Rule.

Record ValidationRule := {
  min : float;
  max : float;
  required : bool;
  description : string
}.

End Rule.

Record ValidationResult := {
  isValid : bool;
  errors : list string
}.

Record CalculationResult := {
  kw : float;
  kva : float;
  kvar : float;
  pf : float;
  adjustedPower : float;
  phase : float;
  costPerHour : float;
  costPerDay : float;
  costPerMonth : float;
  costPerYear : float
}.

Module Input.

(** What [parseFloat] and [parseInt] return for the six input fields; an
    empty or non-numeric field parses to NaN. *)
Record ParsedFields := {
  voltageInput : float;
  currentInput : float;
  phaseSelect : float;
  powerFactorInput : float;
  efficiencyInput : float;
  electricityRateInput : float
}.

Record InputValues := {
  voltage : float;
  current : float;
  phase : float;
  powerFactor : float;
  efficiency : float;
  rate : float
}.

End Input.

Module History.

Record HistoryItem := {
  id : string;
  timestamp : Z;
  voltage : float;
  current : float;
  phase : float;
  powerFactor : float;
  efficiency : float;
  rate : float;
  result : CalculationResult
}.

End History.

Import History (HistoryItem).

(** ** Validation rules *)

Module VALIDATION_RULES.

Definition voltage : Rule.ValidationRule :=
  {| Rule.min := 0; Rule.max := 1000000; Rule.required := true;
     Rule.description := "Voltage" |}.

Definition current : Rule.ValidationRule :=
  {| Rule.min := 0; Rule.max := 100000; Rule.required := true;
     Rule.description := "Current" |}.

Definition powerFactor : Rule.ValidationRule :=
  {| Rule.min := 0.5; Rule.max := 1.0; Rule.required := false;
     Rule.description := "Power Factor" |}.

Definition efficiency : Rule.ValidationRule :=
  {| Rule.min := 0; Rule.max := 100; Rule.required := false;
     Rule.description := "Efficiency" |}.

Definition rate : Rule.ValidationRule :=
  {| Rule.min := 0; Rule.max := 10; Rule.required := false;
     Rule.description := "Electricity Rate" |}.

End VALIDATION_RULES.

(** ** Validator

    [errors.push(m)] appends [m] at the end of the array.  The tests
    [x === null] of the source are false on every number and are left out. *)

Definition push (errors : list string) (m : string) : list string :=
  errors ++ [m].

Definition validateInputs
    (voltage current powerFactor efficiency rate : float) : ValidationResult :=
  let errors : list string := [] in
  let errors :=
    if JS.isNaN voltage then
      push errors (Rule.description VALIDATION_RULES.voltage +:+ " is required")
    else if (voltage <=? Rule.min VALIDATION_RULES.voltage)%float then
      push errors (Rule.description VALIDATION_RULES.voltage +:+ " must be greater than 0")
    else if JS.gt voltage (Rule.max VALIDATION_RULES.voltage) then
      push errors (Rule.description VALIDATION_RULES.voltage +:+ " exceeds maximum limit")
    else errors in
  let errors :=
    if JS.isNaN current then
      push errors (Rule.description VALIDATION_RULES.current +:+ " is required")
    else if (current <=? Rule.min VALIDATION_RULES.current)%float then
      push errors (Rule.description VALIDATION_RULES.current +:+ " must be greater than 0")
    else if JS.gt current (Rule.max VALIDATION_RULES.current) then
      push errors (Rule.description VALIDATION_RULES.current +:+ " exceeds maximum limit")
    else errors in
  let errors :=
    if negb (JS.isNaN powerFactor) then
      if (powerFactor <? Rule.min VALIDATION_RULES.powerFactor)%float
         || JS.gt powerFactor (Rule.max VALIDATION_RULES.powerFactor) then
        push errors
          (Rule.description VALIDATION_RULES.powerFactor +:+ " must be between 0.5 and 1.0")
      else errors
    else errors in
  let errors :=
    if negb (JS.isNaN efficiency) then
      if (efficiency <? Rule.min VALIDATION_RULES.efficiency)%float
         || JS.gt efficiency (Rule.max VALIDATION_RULES.efficiency) then
        push errors
          (Rule.description VALIDATION_RULES.efficiency +:+ " must be between 0 and 100")
      else errors
    else errors in
  {| isValid := Nat.eqb (length errors) 0;
     errors := errors |}.

(** ** Power and cost calculator *)

Definition calculatePower
    (voltage current phase powerFactor efficiency rate : float)
    : CalculationResult :=
  let '(kva, kw) :=
    if JS.strict_eq phase 1 then
      let kva := ((voltage * current) / 1000)%float in
      (kva, (kva * powerFactor)%float)
    else
      let sqrt3 := JS.Math_sqrt 3 in
      let kva := ((sqrt3 * voltage * current) / 1000)%float in
      (kva, (kva * powerFactor)%float) in
  let adjustedPower := (kw * (efficiency / 100))%float in
  let kvar :=
    JS.Math_sqrt (JS.Math_max 0 (JS.Math_pow2 kva - JS.Math_pow2 kw)%float) in
  let costPerHour := (adjustedPower * rate)%float in
  let costPerDay := (costPerHour * 24)%float in
  let costPerMonth := (costPerDay * 30)%float in
  let costPerYear := (costPerDay * 365)%float in
  {| kw := kw;
     kva := kva;
     kvar := kvar;
     pf := powerFactor;
     adjustedPower := adjustedPower;
     phase := phase;
     costPerHour := costPerHour;
     costPerDay := costPerDay;
     costPerMonth := costPerMonth;
     costPerYear := costPerYear |}.

(** ** Reading the inputs and recalculating *)

Definition getInputValues (f : Input.ParsedFields) : Input.InputValues :=
  {| Input.voltage := Input.voltageInput f;
     Input.current := Input.currentInput f;
     Input.phase := Input.phaseSelect f;
     Input.powerFactor := JS.or_default (Input.powerFactorInput f) 0.9;
     Input.efficiency := JS.or_default (Input.efficiencyInput f) 100;
     Input.rate := JS.or_default (Input.electricityRateInput f) 0.12 |}.

(** What [updateCalculations] hands to the results panel: the argument of
    [displayErrors] or of [displayResults]. *)
Inductive Display :=
  | displayErrors (errors : list string)
  | displayResults (result : CalculationResult).

Definition updateCalculations (f : Input.ParsedFields) : Display :=
  let v := getInputValues f in
  let validation :=
    validateInputs (Input.voltage v) (Input.current v) (Input.powerFactor v)
                   (Input.efficiency v) (Input.rate v) in
  if negb (isValid validation) then displayErrors (errors validation)
  else
    let result :=
      calculatePower (Input.voltage v) (Input.current v) (Input.phase v)
                     (Input.powerFactor v) (Input.efficiency v) (Input.rate v) in
    displayResults result.

(** ** Local storage and the history store

    [localStorage] maps keys to strings.  A string written by
    [JSON.stringify] is kept as the array it encodes ([Json h]); any other
    stored string, such as the theme, is [Str s].  [JSON.parse] gives back
    the array of a [Json] value; on a [Str] value it throws, which is
    [None] here. *)

Inductive Blob :=
  | Str (s : string)
  | Json (h : list HistoryItem).

Abbreviation localStorage := (gmap string Blob).

Definition getItem (key : string) (ls : localStorage) : option Blob := ls !! key.

Definition setItem (key : string) (value : Blob) (ls : localStorage) : localStorage :=
  <[key := value]> ls.

Definition removeItem (key : string) (ls : localStorage) : localStorage :=
  delete key ls.

Definition JSON_stringify (h : list HistoryItem) : Blob := Json h.

Definition JSON_parse (b : Blob) : option (list HistoryItem) :=
  match b with
  | Json h => Some h
  | Str _ => None
  end.

(** Truthiness of the result of [getItem]: [null] and the empty string are
    falsy. *)
Definition truthy_item (o : option Blob) : bool :=
  match o with
  | None => false
  | Some (Str s) => negb (String.eqb s "")
  | Some (Json _) => true
  end.

Definition getHistory (ls : localStorage) : option (list HistoryItem) :=
  let historyData := getItem "calculationHistory" ls in
  if truthy_item historyData then historyData ≫= JSON_parse else Some [].

(** [history.unshift(item)]. *)
Definition unshift (item : HistoryItem) (history : list HistoryItem) :=
  item :: history.

(** [history.splice(10)] removes every element from index 10 on. *)
Definition splice_from (n : nat) (history : list HistoryItem) :=
  take n history.

(** [saveCalculation]; [t_id] and [t_ts] are the two readings of
    [Date.now()].  Nothing is stored when validation fails. *)
Definition saveCalculation (f : Input.ParsedFields) (t_id t_ts : Z)
    (ls : localStorage) : option localStorage :=
  let v := getInputValues f in
  let validation :=
    validateInputs (Input.voltage v) (Input.current v) (Input.powerFactor v)
                   (Input.efficiency v) (Input.rate v) in
  if negb (isValid validation) then Some ls
  else
    let result :=
      calculatePower (Input.voltage v) (Input.current v) (Input.phase v)
                     (Input.powerFactor v) (Input.efficiency v) (Input.rate v) in
    let historyItem :=
      {| History.id := pretty t_id;
         History.timestamp := t_ts;
         History.voltage := Input.voltage v;
         History.current := Input.current v;
         History.phase := Input.phase v;
         History.powerFactor := Input.powerFactor v;
         History.efficiency := Input.efficiency v;
         History.rate := Input.rate v;
         History.result := result |} in
    history ← getHistory ls;
    let history := unshift historyItem history in
    let history :=
      if (10 <? length history)%nat then splice_from 10 history else history in
    Some (setItem "calculationHistory" (JSON_stringify history) ls).

(** [clearHistory]; [confirmed] is the answer to the [confirm] dialog. *)
Definition clearHistory (confirmed : bool) (ls : localStorage) : localStorage :=
  if confirmed then removeItem "calculationHistory" ls else ls.

Definition deleteHistoryItem (id : string) (ls : localStorage)
    : option localStorage :=
  history ← getHistory ls;
  let filtered := filter (λ item, History.id item ≠ id) history in
  Some (setItem "calculationHistory" (JSON_stringify filtered) ls).

(** *** The store as a transition system *)

Inductive Action :=
  | Save (f : Input.ParsedFields) (t_id t_ts : Z)
  | Delete (id : string)
  | Clear (confirmed : bool).

Definition step (a : Action) (ls : localStorage) : option localStorage :=
  match a with
  | Save f t_id t_ts => saveCalculation f t_id t_ts ls
  | Delete id => deleteHistoryItem id ls
  | Clear confirmed => Some (clearHistory confirmed ls)
  end.

(** States reached from a storage without saved history. *)
Inductive reachable : localStorage → Prop :=
  | reachable_fresh ls :
      getItem "calculationHistory" ls = None → reachable ls
  | reachable_step a ls ls' :
      reachable ls → step a ls = Some ls' → reachable ls'.

(** *** Names for what the history operations do *)

(** The inputs pass validation, so [saveCalculation] goes on to store. *)
Definition validates (f : Input.ParsedFields) : bool :=
  let v := getInputValues f in
  isValid (validateInputs (Input.voltage v) (Input.current v)
             (Input.powerFactor v) (Input.efficiency v) (Input.rate v)).

(** The [historyItem] object that [saveCalculation] builds. *)
Definition saved_item (f : Input.ParsedFields) (t_id t_ts : Z) : HistoryItem :=
  let v := getInputValues f in
  {| History.id := pretty t_id;
     History.timestamp := t_ts;
     History.voltage := Input.voltage v;
     History.current := Input.current v;
     History.phase := Input.phase v;
     History.powerFactor := Input.powerFactor v;
     History.efficiency := Input.efficiency v;
     History.rate := Input.rate v;
     History.result :=
       calculatePower (Input.voltage v) (Input.current v) (Input.phase v)
         (Input.powerFactor v) (Input.efficiency v) (Input.rate v) |}.

(** One click on the save button: the parsed fields and the two clock
    readings. *)
Record SaveRequest := {
  fields : Input.ParsedFields;
  clock_id : Z;
  clock_ts : Z
}.

Definition item_of (s : SaveRequest) : HistoryItem :=
  saved_item (fields s) (clock_id s) (clock_ts s).

(** Saving a sequence of calculations, oldest first. *)
Fixpoint save_all (l : list SaveRequest) (ls : localStorage)
    : option localStorage :=
  match l with
  | [] => Some ls
  | s :: l' =>
      ls' ← saveCalculation (fields s) (clock_id s) (clock_ts s) ls;
      save_all l' ls'
  end.

(** The entry an action creates, if any. *)
Definition created (a : Action) : list HistoryItem :=
  match a with
  | Save f t_id t_ts => if validates f then [saved_item f t_id t_ts] else []
  | Delete _ | Clear _ => []
  end.

(** The history listed after an action, from the history listed before. *)
Definition history_after (a : Action) (h : list HistoryItem) : list HistoryItem :=
  match a with
  | Save f t_id t_ts => take 10 (created a ++ h)
  | Delete id => filter (λ item, History.id item ≠ id) h
  | Clear confirmed => if confirmed then [] else h
  end.

(** Sample data: a valid single-phase reading saved at clock reading [t]. *)
Definition sample_fields : Input.ParsedFields :=
  {| Input.voltageInput := 120; Input.currentInput := 10;
     Input.phaseSelect := 1; Input.powerFactorInput := 1;
     Input.efficiencyInput := 100; Input.electricityRateInput := 0.12 |}.

Definition sample_request (t : Z) : SaveRequest :=
  {| fields := sample_fields; clock_id := t; clock_ts := t |}.

(** The parsed fields with one field replaced. *)
Definition with_powerFactor (f : Input.ParsedFields) (x : float) :=
  {| Input.voltageInput := Input.voltageInput f;
     Input.currentInput := Input.currentInput f;
     Input.phaseSelect := Input.phaseSelect f;
     Input.powerFactorInput := x;
     Input.efficiencyInput := Input.efficiencyInput f;
     Input.electricityRateInput := Input.electricityRateInput f |}.

Definition with_efficiency (f : Input.ParsedFields) (x : float) :=
  {| Input.voltageInput := Input.voltageInput f;
     Input.currentInput := Input.currentInput f;
     Input.phaseSelect := Input.phaseSelect f;
     Input.powerFactorInput := Input.powerFactorInput f;
     Input.efficiencyInput := x;
     Input.electricityRateInput := Input.electricityRateInput f |}.

Definition with_rate (f : Input.ParsedFields) (x : float) :=
  {| Input.voltageInput := Input.voltageInput f;
     Input.currentInput := Input.currentInput f;
     Input.phaseSelect := Input.phaseSelect f;
     Input.powerFactorInput := Input.powerFactorInput f;
     Input.efficiencyInput := Input.efficiencyInput f;
     Input.electricityRateInput := x |}.

(** A field that parses to a zero of either sign, or is absent. *)
Definition parses_to_zero (x : float) : Prop := (x =? 0)%float = true.

Definition absent (x : float) : Prop := JS.isNaN x = true.

(** ** The calculator as the specification words it

    Used to compare the five-step description with [calculatePower]. *)

Module Algorithm.

Definition apparentPower (V I phase : float) : float :=
  if JS.strict_eq phase 1 then ((V * I) / 1000)%float
  else ((JS.Math_sqrt 3 * V * I) / 1000)%float.

Definition realPower (apparentPower powerFactor : float) : float :=
  (apparentPower * powerFactor)%float.

Definition adjusted (realPower efficiency : float) : float :=
  (realPower * (efficiency / 100))%float.

Definition reactivePower (apparentPower realPower : float) : float :=
  JS.Math_sqrt
    (JS.Math_max 0 (JS.Math_pow2 apparentPower - JS.Math_pow2 realPower)%float).

Definition perHour (adjustedPower rate : float) : float :=
  (adjustedPower * rate)%float.

Definition perDay (costPerHour : float) : float := (costPerHour * 24)%float.

Definition perMonth (costPerDay : float) : float := (costPerDay * 30)%float.

Definition perYear (costPerDay : float) : float := (costPerDay * 365)%float.

Definition calculate (V I phase powerFactor efficiency rate : float)
    : CalculationResult :=
  let S := apparentPower V I phase in
  let P := realPower S powerFactor in
  let A := adjusted P efficiency in
  let H := perHour A rate in
  let D := perDay H in
  {| kw := P; kva := S; kvar := reactivePower S P; pf := powerFactor;
     adjustedPower := A; phase := phase;
     costPerHour := H; costPerDay := D;
     costPerMonth := perMonth D; costPerYear := perYear D |}.

End Algorithm.

(** ** The validation rules as the specification words them *)

Module Violation.

Definition voltage (v : float) : bool :=
  JS.isNaN v || (v <=? 0)%float || JS.gt v 1000000.

Definition current (c : float) : bool :=
  JS.isNaN c || (c <=? 0)%float || JS.gt c 100000.

Definition powerFactor (x : float) : bool :=
  negb (JS.isNaN x) && ((x <? 0.5)%float || JS.gt x 1).

Definition efficiency (x : float) : bool :=
  negb (JS.isNaN x) && ((x <? 0)%float || JS.gt x 100).

End Violation.

Definition voltage_errors : list string :=
  ["Voltage is required"; "Voltage must be greater than 0";
   "Voltage exceeds maximum limit"].

Definition current_errors : list string :=
  ["Current is required"; "Current must be greater than 0";
   "Current exceeds maximum limit"].

Definition powerFactor_errors : list string :=
  ["Power Factor must be between 0.5 and 1.0"].

Definition efficiency_errors : list string :=
  ["Efficiency must be between 0 and 100"].

(** The errors [es] reported for one field: exactly one message out of
    [candidates] when the rule is violated, none otherwise. *)
Definition reports (violated : bool) (candidates es : list string) : Prop :=
  if violated then ∃ m, es = [m] ∧ m ∈ candidates else es = [].

(** ** Theme

    The page keeps the theme in the [data-theme] attribute of the document
    element and shows it on the [.theme-icon] element of the toggle
    button, when there is one.  A string value is a [Blob], as in the
    storage. *)

Record Page := {
  data_theme : option Blob;
  theme_icon : option string
}.

(** [b === s] for a string value [b] and a theme name [s]; the text of a
    JSON array is never a theme name. *)
Definition blob_is (b : Blob) (s : string) : bool :=
  match b with
  | Str t => String.eqb t s
  | Json _ => false
  end.

(** [o || d] on the result of [getItem]. *)
Definition item_or (o : option Blob) (d : Blob) : Blob :=
  match o with
  | Some b => if truthy_item o then b else d
  | None => d
  end.

Definition setAttribute_data_theme (value : Blob) (p : Page) : Page :=
  {| data_theme := Some value; theme_icon := theme_icon p |}.

Definition updateThemeIcon (theme : Blob) (p : Page) : Page :=
  match theme_icon p with
  | Some _ =>
      {| data_theme := data_theme p;
         theme_icon := Some (if blob_is theme "dark" then "☀️" else "🌙") |}
  | None => p
  end.

Definition initTheme (ls : localStorage) (p : Page) : Page :=
  let savedTheme := item_or (getItem "theme" ls) (Str "light") in
  updateThemeIcon savedTheme (setAttribute_data_theme savedTheme p).

Definition toggleTheme (ls : localStorage) (p : Page) : localStorage * Page :=
  let currentTheme := data_theme p in
  let newTheme :=
    match currentTheme with
    | Some b => if blob_is b "dark" then "light" else "dark"
    | None => "dark"
    end in
  let p := setAttribute_data_theme (Str newTheme) p in
  let ls := setItem "theme" (Str newTheme) ls in
  (ls, updateThemeIcon (Str newTheme) p).

(** ** The first version of the page ([main.js])

    Four inputs, no power factor and no rate: the real power is taken
    equal to the apparent power and the displayed power factor is the
    constant 0.9.  [String(1000000)] is ["1000000"] and [String(100000)]
    is ["100000"]; the tests [x === ''] are false on every number. *)

Module Legacy.

Definition validateInputs (voltage current efficiency : float)
    : ValidationResult :=
  let errors : list string := [] in
  let errors :=
    if JS.isNaN voltage then
      push errors (Rule.description VALIDATION_RULES.voltage +:+ " is required")
    else if (voltage <=? Rule.min VALIDATION_RULES.voltage)%float then
      push errors (Rule.description VALIDATION_RULES.voltage +:+ " must be greater than 0")
    else if JS.gt voltage (Rule.max VALIDATION_RULES.voltage) then
      push errors (Rule.description VALIDATION_RULES.voltage
                   +:+ " exceeds maximum limit of " +:+ "1000000" +:+ "V")
    else errors in
  let errors :=
    if JS.isNaN current then
      push errors (Rule.description VALIDATION_RULES.current +:+ " is required")
    else if (current <=? Rule.min VALIDATION_RULES.current)%float then
      push errors (Rule.description VALIDATION_RULES.current +:+ " must be greater than 0")
    else if JS.gt current (Rule.max VALIDATION_RULES.current) then
      push errors (Rule.description VALIDATION_RULES.current
                   +:+ " exceeds maximum limit of " +:+ "100000" +:+ "A")
    else errors in
  let errors :=
    if negb (JS.isNaN efficiency) then
      if (efficiency <? Rule.min VALIDATION_RULES.efficiency)%float then
        push errors (Rule.description VALIDATION_RULES.efficiency
                     +:+ " cannot be less than 0%")
      else if JS.gt efficiency (Rule.max VALIDATION_RULES.efficiency) then
        push errors (Rule.description VALIDATION_RULES.efficiency
                     +:+ " cannot exceed 100%")
      else errors
    else errors in
  {| isValid := Nat.eqb (length errors) 0;
     errors := errors |}.

(** The six figures the results panel shows. *)
Record Figures := {
  kw : float;
  kva : float;
  kvar : float;
  pf : float;
  adjustedPower : float;
  phase : float
}.

Inductive Display :=
  | displayErrors (errors : list string)
  | displayFigures (figures : Figures).

Definition updateCalculations
    (voltageInput currentInput phaseSelect efficiencyInput : float) : Display :=
  let voltage := voltageInput in
  let current := currentInput in
  let phase := phaseSelect in
  let efficiency := JS.or_default efficiencyInput 100 in
  let validation := validateInputs voltage current efficiency in
  if negb (isValid validation) then displayErrors (errors validation)
  else
    let '(kw, kva) :=
      if JS.strict_eq phase 1 then
        (((voltage * current) / 1000)%float, ((voltage * current) / 1000)%float)
      else
        let sqrt3 := JS.Math_sqrt 3 in
        (((sqrt3 * voltage * current) / 1000)%float,
         ((sqrt3 * voltage * current) / 1000)%float) in
    let adjustedPower := (kw * (efficiency / 100))%float in
    let pf := 0.9%float in
    let kvar :=
      JS.Math_sqrt (JS.Math_max 0 (JS.Math_pow2 kva - JS.Math_pow2 kw)%float) in
    displayFigures
      {| kw := kw; kva := kva; kvar := kvar; pf := pf;
         adjustedPower := adjustedPower; phase := phase |}.

End Legacy.

(** ** Further names used in the properties *)

(** The parsed fields that hold the values [v]. *)
Definition fields_of_values (v : Input.InputValues) : Input.ParsedFields :=
  {| Input.voltageInput := Input.voltage v;
     Input.currentInput := Input.current v;
     Input.phaseSelect := Input.phase v;
     Input.powerFactorInput := Input.powerFactor v;
     Input.efficiencyInput := Input.efficiency v;
     Input.electricityRateInput := Input.rate v |}.

(** [x] lies in the closed range from [lo] to [hi]. *)
Definition between (lo hi x : float) : Prop :=
  (lo <=? x)%float = true ∧ (x <=? hi)%float = true.

(** [x] is above [lo] and at most [hi]. *)
Definition above_upto (lo hi x : float) : Prop :=
  (lo <? x)%float = true ∧ (x <=? hi)%float = true.

(** The input values of a stored entry are within the validation ranges. *)
Definition item_in_range (item : HistoryItem) : Prop :=
  above_upto 0 1000000 (History.voltage item) ∧
  above_upto 0 100000 (History.current item) ∧
  between 0.5 1 (History.powerFactor item) ∧
  above_upto 0 100 (History.efficiency item) ∧
  JS.truthy (History.rate item) = true.

(** The stored result of an entry is the calculation on its stored
    inputs. *)
Definition item_consistent (item : HistoryItem) : Prop :=
  History.result item
  = calculatePower (History.voltage item) (History.current item)
      (History.phase item) (History.powerFactor item)
      (History.efficiency item) (History.rate item).

(** What a stored entry is known to satisfy: it was built by a save that
    passed validation. *)
Definition item_sound (item : HistoryItem) : Prop :=
  item_in_range item ∧ item_consistent item ∧
  ∃ f t_id t_ts, validates f = true ∧ item = saved_item f t_id t_ts.

(** What [saveCalculation] does with the fields [f]: when they pass
    validation it puts one new entry, which satisfies [Q], in front of the
    listed history; when they do not, it leaves the storage as it is. *)
Definition stores_with (f : Input.ParsedFields) (Q : HistoryItem → Prop) : Prop :=
  ∀ t_id t_ts (ls : localStorage) (h : list HistoryItem),
    getHistory ls = Some h →
    (validates f = true →
     ∃ ls' item,
       saveCalculation f t_id t_ts ls = Some ls' ∧
       getHistory ls' = Some (item :: take 9 h) ∧
       History.id item = pretty t_id ∧ Q item) ∧
    (validates f = false → saveCalculation f t_id t_ts ls = Some ls).

(** Validation, calculation and display of the fields [f] run on the
    power factor [PF], the efficiency [E] and the rate [R]. *)
Definition runs_with (f : Input.ParsedFields) (PF E R : float) : Prop :=
  let v := getInputValues f in
  validates f
  = isValid (validateInputs (Input.voltage v) (Input.current v) PF E R) ∧
  updateCalculations f
  = if isValid (validateInputs (Input.voltage v) (Input.current v) PF E R)
    then displayResults
           (calculatePower (Input.voltage v) (Input.current v) (Input.phase v)
              PF E R)
    else displayErrors
           (errors (validateInputs (Input.voltage v) (Input.current v) PF E R)).

(** The stored inputs of an entry that validation restricts are within
    their ranges, and its stored power figures derive from them. *)
Definition item_figures_derived (item : HistoryItem) : Prop :=
  let r := History.result item in
  above_upto 0 1000000 (History.voltage item) ∧
  above_upto 0 100000 (History.current item) ∧
  between 0.5 1 (History.powerFactor item) ∧
  above_upto 0 100 (History.efficiency item) ∧
  (kva r = ((History.voltage item * History.current item) / 1000)%float
   ∨ kva r = ((JS.Math_sqrt 3 * History.voltage item * History.current item)
              / 1000)%float) ∧
  kw r = (kva r * History.powerFactor item)%float ∧
  adjustedPower r = (kw r * (History.efficiency item / 100))%float ∧
  pf r = History.powerFactor item.

(** A binary64 value that is zero or finite, of magnitude below 2^N. *)
Definition mag_le (N : Z) (x : spec_float) : Prop :=
  match x with
  | S754_zero _ => True
  | S754_finite _ m e => (Z.pos (digits2_pos m) + e <= N)%Z
  | _ => False
  end.

(** The number [x] is zero or finite, of magnitude below 2^N. *)
Definition fmag (N : Z) (x : float) : Prop := mag_le N (Prim2SF x).

(** The four costs of a result. *)
Definition costs (r : CalculationResult) : list float :=
  [costPerHour r; costPerDay r; costPerMonth r; costPerYear r].

(** The power figures of a result. *)
Definition power_figures (r : CalculationResult) : list float :=
  [kva r; kw r; adjustedPower r; kvar r].

(** Binary64 values other than NaN, with sign bit [s]. *)
Inductive signed_SF (s : bool) : spec_float → Prop :=
  | signed_zero : signed_SF s (S754_zero s)
  | signed_infinity : signed_SF s (S754_infinity s)
  | signed_finite m e : signed_SF s (S754_finite s m e).

(** Binary64 values with a clear sign bit. *)
Inductive nonneg_SF : spec_float → Prop :=
  | nonneg_zero : nonneg_SF (S754_zero false)
  | nonneg_infinity : nonneg_SF (S754_infinity false)
  | nonneg_finite m e : nonneg_SF (S754_finite false m e).

(** * Properties *)

(** ** Binary64 facts behind the clamped square root *)

Section FloatFacts.

Lemma iter_pos_shr_1_nonneg p mrs :
  (0 <= shr_m mrs)%Z → (0 <= shr_m (SpecFloat.iter_pos shr_1 p mrs))%Z.
Proof.
  revert mrs. induction p as [p IH|p IH|]; intros mrs Hm; simpl.
  - apply IH, IH. destruct mrs as [[|[q|q|]|q] r s]; simpl in *; lia.
  - apply IH, IH, Hm.
  - destruct mrs as [[|[q|q|]|q] r s]; simpl in *; lia.
Qed.

Lemma shr_fexp_nonneg m e l :
  (0 <= m)%Z → (0 <= shr_m (shr_fexp prec emax m e l).1)%Z.
Proof.
  intros Hm. unfold shr_fexp, shr.
  assert (Hrec : (0 <= shr_m (shr_record_of_loc m l))%Z).
  { destruct l as [|[]]; exact Hm. }
  destruct (fexp prec emax (Zdigits2 m + e) - e)%Z; simpl; try exact Hrec.
  by apply iter_pos_shr_1_nonneg.
Qed.

Lemma round_nearest_even_nonneg m l :
  (0 <= m)%Z → (0 <= round_nearest_even m l)%Z.
Proof.
  intros Hm. destruct l as [|[]]; simpl; try lia.
  destruct (Z.even m); lia.
Qed.

Lemma binary_round_aux_nonneg m e l :
  (0 <= m)%Z → nonneg_SF (binary_round_aux prec emax false m e l).
Proof.
  intros Hm. unfold binary_round_aux.
  pose proof (shr_fexp_nonneg m e l Hm) as H1.
  destruct (shr_fexp prec emax m e l) as [mrs' e'] eqn:E1. simpl in H1.
  pose proof (shr_fexp_nonneg _ e' loc_Exact
                (round_nearest_even_nonneg _ (loc_of_shr_record mrs') H1)) as H2.
  destruct (shr_fexp prec emax _ e' loc_Exact) as [mrs'' e''] eqn:E2. simpl in H2.
  destruct (shr_m mrs'') as [|q|q]; [constructor| |lia].
  destruct (e'' <=? emax - prec)%Z; constructor.
Qed.

Lemma SFsqrt_core_binary_nonneg m e :
  (0 <= (SFsqrt_core_binary prec emax m e).1.1)%Z.
Proof.
  unfold SFsqrt_core_binary.
  set (m' := match (e - 2 * _)%Z with Z0 => m | Zpos _ => _ | Zneg _ => _ end).
  pose proof (Z.sqrtrem_sqrt m') as Hq.
  destruct (Z.sqrtrem m') as [q r]. simpl in *. subst q. apply Z.sqrt_nonneg.
Qed.

Lemma SF64sqrt_nonneg x : nonneg_SF x → nonneg_SF (SF64sqrt x).
Proof.
  destruct 1 as [| |m e]; try constructor.
  unfold SF64sqrt, SFsqrt.
  pose proof (SFsqrt_core_binary_nonneg (Z.pos m) e) as Hq.
  destruct (SFsqrt_core_binary prec emax (Z.pos m) e) as [[mz ez] lz].
  by apply binary_round_aux_nonneg.
Qed.

Lemma SFcompare_refl_finite s m e :
  SFcompare (S754_finite s m e) (S754_finite s m e) = Some Eq.
Proof.
  pose proof (Z.compare_refl e : IntDef.Z.compare e e = Eq) as He.
  pose proof (Pos.compare_cont_refl m Eq : PosDef.Pos.compare_cont Eq m m = Eq) as Hm.
  simpl. rewrite He, Hm. destruct s; reflexivity.
Qed.

Lemma isNaN_Prim2SF x :
  JS.isNaN x = match Prim2SF x with S754_nan => true | _ => false end.
Proof.
  unfold JS.isNaN, is_nan. rewrite FloatAxioms.eqb_spec. unfold SFeqb.
  destruct (Prim2SF x) as [s|s| |s m e]; [by destruct s|by destruct s|done|].
  by rewrite SFcompare_refl_finite.
Qed.

Lemma nonneg_SF_compare x :
  nonneg_SF (Prim2SF x) →
  JS.isNaN x = false ∧ (0 <=? x)%float = true ∧ (x <? 0)%float = false.
Proof.
  intros Hx. rewrite isNaN_Prim2SF, FloatAxioms.leb_spec, FloatAxioms.ltb_spec.
  change (Prim2SF 0) with (S754_zero false).
  by destruct Hx.
Qed.

Lemma Math_max_0_cases d :
  (JS.isNaN d = true ∧ JS.Math_max 0 d = nan) ∨
  (JS.isNaN d = false ∧ nonneg_SF (Prim2SF (JS.Math_max 0 d))).
Proof.
  unfold JS.Math_max. change (JS.isNaN 0) with false. simpl orb.
  rewrite isNaN_Prim2SF, !FloatAxioms.ltb_spec.
  change (get_sign 0) with false. change (Prim2SF 0) with (S754_zero false).
  destruct (Prim2SF d) as [s|s| |s m e] eqn:Ed; [right|right|left|right];
    split; try done; destruct s; simpl; rewrite ?Ed; constructor.
Qed.

(** The clamped square root [Math.sqrt(Math.max(0, d))]. *)
Lemma clamped_sqrt_facts d :
  let rad := JS.Math_max 0 d in
  (rad <? 0)%float = false ∧
  (JS.Math_sqrt rad <? 0)%float = false ∧
  JS.isNaN (JS.Math_sqrt rad) = JS.isNaN d ∧
  (JS.isNaN d = false →
   (0 <=? rad)%float = true ∧ (0 <=? JS.Math_sqrt rad)%float = true).
Proof.
  intros rad. destruct (Math_max_0_cases d) as [[Hn Hr]|[Hn Hr]].
  - subst rad. rewrite Hr, Hn. by repeat split.
  - fold rad in Hr. rewrite Hn.
    assert (Hs : nonneg_SF (Prim2SF (JS.Math_sqrt rad))).
    { unfold JS.Math_sqrt. rewrite FloatAxioms.sqrt_spec. by apply SF64sqrt_nonneg. }
    apply nonneg_SF_compare in Hr as (_ & Hr1 & Hr2).
    apply nonneg_SF_compare in Hs as (Hs0 & Hs1 & Hs2).
    by repeat split.
Qed.

End FloatFacts.

(** [phase === 1] holds for exactly one binary64 value. *)
Lemma strict_eq_1 p : JS.strict_eq p 1 = true ↔ p = 1%float.
Proof.
  split; [|by intros ->].
  unfold JS.strict_eq. rewrite FloatAxioms.eqb_spec. unfold SFeqb.
  intros H. apply Prim2SF_inj.
  change (Prim2SF 1) with (S754_finite false 4503599627370496 (-52)) in *.
  destruct (Prim2SF p) as [s|s| |s m e]; [by destruct s|by destruct s|done|].
  destruct s; [done|]. cbn [SFcompare] in H.
  destruct (IntDef.Z.compare e (-52)) eqn:He; [|discriminate H..].
  apply Z.compare_eq in He as ->.
  destruct (PosDef.Pos.compare_cont Eq m 4503599627370496) eqn:Hm;
    [|discriminate H..].
  apply (Pos.compare_eq m) in Hm. rewrite Hm. reflexivity.
Qed.

(** ** Calculator *)

Lemma calculatePower_unfold (V I p pf e r : float) :
  calculatePower V I p pf e r = Algorithm.calculate V I p pf e r.
Proof.
  unfold calculatePower, Algorithm.calculate, Algorithm.apparentPower.
  by destruct (JS.strict_eq p 1).
Qed.

(** C1: [calculatePower] returns the record of the five-step algorithm:
    the apparent power by the phase, the real power, the adjusted power,
    the clamped reactive power, the four costs, and the power factor and
    phase it was given. *)
Theorem calculatePower_algorithm (V I p PF e r : float) :
  let res := calculatePower V I p PF e r in
  res = Algorithm.calculate V I p PF e r ∧
  kva res = (if JS.strict_eq p 1 then (V * I) / 1000
             else (JS.Math_sqrt 3 * V * I) / 1000)%float ∧
  kw res = (kva res * PF)%float ∧
  adjustedPower res = (kw res * (e / 100))%float ∧
  kvar res = JS.Math_sqrt
               (JS.Math_max 0 (JS.Math_pow2 (kva res) - JS.Math_pow2 (kw res))%float) ∧
  costPerHour res = (adjustedPower res * r)%float ∧
  costPerDay res = (costPerHour res * 24)%float ∧
  costPerMonth res = (costPerDay res * 30)%float ∧
  costPerYear res = (costPerDay res * 365)%float ∧
  pf res = PF ∧
  phase res = p.
Proof.
  intros res. subst res. rewrite calculatePower_unfold. by repeat split.
Qed.

(** The three-phase worked example of the README: 480 V, 100 A. *)
Example calculatePower_example_480V_100A :
  let r := calculatePower 480 100 3 0.9 90 0.12 in
  kva r = 83.1384387633061%float ∧ kw r = 74.82459488697549%float ∧
  adjustedPower r = 67.34213539827795%float.
Proof. vm_compute. repeat split; reflexivity. Qed.

(** C8: the single-phase worked example. *)
Theorem calculatePower_example_120V_10A :
  let r := calculatePower 120 10 1 1 100 0.12 in
  kva r = 1.2%float /\ kw r = 1.2%float /\ kvar r = 0%float /\
  adjustedPower r = 1.2%float /\ costPerHour r = 0.144%float.
Proof. vm_compute. repeat split; reflexivity. Qed.

(** C4: the reactive power is the clamped square root, in [calculatePower]
    and in the helper [calculateReactivePower]; the radicand and the
    result are never below zero, the square root adds no NaN of its own,
    and whenever the difference of squares is a number both are at least
    zero. *)
Theorem reactivePower_clamped (V I p pf e r : float) :
  let res := calculatePower V I p pf e r in
  let d := (JS.Math_pow2 (kva res) - JS.Math_pow2 (kw res))%float in
  let rad := JS.Math_max 0 d in
  kvar res = JS.Math_sqrt rad ∧
  Electrical.calculateReactivePower (kva res) (kw res) = kvar res ∧
  (rad <? 0)%float = false ∧
  (kvar res <? 0)%float = false ∧
  JS.isNaN (kvar res) = JS.isNaN d ∧
  (JS.isNaN d = false →
   (0 <=? rad)%float = true ∧ (0 <=? kvar res)%float = true) ∧
  (∀ apparent real : float,
     let q := Electrical.calculateReactivePower apparent real in
     q = JS.Math_sqrt
           (JS.Math_max 0 (JS.Math_pow2 apparent - JS.Math_pow2 real)%float) ∧
     (q <? 0)%float = false).
Proof.
  intros res d rad.
  assert (Hk : kvar res = JS.Math_sqrt rad).
  { subst rad d res. rewrite calculatePower_unfold. reflexivity. }
  destruct (clamped_sqrt_facts d) as (H1 & H2 & H3 & H4). fold rad in H1, H2, H3, H4.
  rewrite Hk. split; [done|]. split; [done|]. split; [done|].
  split; [done|]. split; [done|]. split; [exact H4|].
  intros a b. unfold Electrical.calculateReactivePower. split; [done|].
  by destruct (clamped_sqrt_facts (JS.Math_pow2 a - JS.Math_pow2 b)%float)
    as (_ & ? & _).
Qed.

Lemma reactivePower_clamped_witness :
  let res := calculatePower 480 100 3 0.9 90 0.12 in
  JS.isNaN (JS.Math_pow2 (kva res) - JS.Math_pow2 (kw res))%float = false ∧
  (0 <=? kvar res)%float = true.
Proof.
  split; [vm_compute; reflexivity|].
  apply (reactivePower_clamped 480 100 3 0.9 90 0.12).
  vm_compute; reflexivity.
Defined.

(** C9: the single-phase formula is used exactly when [phase] is the
    number 1; every other value, NaN included, takes the three-phase
    formula. *)
Theorem phase_selects_formula (V I p pf e r : float) :
  (p = 1%float →
   kva (calculatePower V I p pf e r) = ((V * I) / 1000)%float) ∧
  (p ≠ 1%float →
   kva (calculatePower V I p pf e r)
   = ((JS.Math_sqrt 3 * V * I) / 1000)%float).
Proof.
  rewrite calculatePower_unfold. cbn [Algorithm.calculate kva].
  unfold Algorithm.apparentPower. split.
  - intros ->. reflexivity.
  - intros Hp. destruct (JS.strict_eq p 1) eqn:E; [|reflexivity].
    by apply strict_eq_1 in E.
Qed.

Lemma float_2_neq_1 : 2%float ≠ 1%float.
Proof. intros H. apply (f_equal (λ x, (x =? 1)%float)) in H. discriminate H. Qed.

Lemma float_nan_neq_1 : nan ≠ 1%float.
Proof. intros H. apply (f_equal (λ x, (x =? 1)%float)) in H. discriminate H. Qed.

Lemma phase_selects_formula_witness :
  kva (calculatePower 480 100 2 0.9 90 0.12)
  = ((JS.Math_sqrt 3 * 480 * 100) / 1000)%float ∧
  kva (calculatePower 480 100 nan 0.9 90 0.12)
  = ((JS.Math_sqrt 3 * 480 * 100) / 1000)%float ∧
  kva (calculatePower 120 10 1 1 100 0.12) = ((120 * 10) / 1000)%float.
Proof.
  split; [|split].
  - apply (phase_selects_formula 480 100 2 0.9 90 0.12), float_2_neq_1.
  - apply (phase_selects_formula 480 100 nan 0.9 90 0.12), float_nan_neq_1.
  - by apply (phase_selects_formula 120 10 1 1 100 0.12).
Defined.

(** ** Validator *)

(** C10: the validation result does not depend on the rate; rates below 0
    or above 10 pass. *)
Theorem validateInputs_ignores_rate (voltage current powerFactor efficiency : float) :
  (∀ r1 r2 : float,
     validateInputs voltage current powerFactor efficiency r1
     = validateInputs voltage current powerFactor efficiency r2) ∧
  isValid (validateInputs 120 10 0.9 100 (-5)) = true ∧
  isValid (validateInputs 120 10 0.9 100 11) = true ∧
  Rule.min VALIDATION_RULES.rate = 0%float ∧
  Rule.max VALIDATION_RULES.rate = 10%float.
Proof. repeat split. Qed.

Lemma gt_positive (c k : float) :
  (∃ m e, Prim2SF k = S754_finite false m e) →
  JS.gt c k = true → JS.isNaN c = false ∧ (c <=? 0)%float = false.
Proof.
  intros (m & e & Hk). unfold JS.gt.
  rewrite FloatAxioms.ltb_spec, isNaN_Prim2SF, FloatAxioms.leb_spec, Hk.
  change (Prim2SF 0) with (S754_zero false).
  by destruct (Prim2SF c) as [s|[]| |[] m' e'].
Qed.

Lemma length_eqb_0 {A} (l : list A) : Nat.eqb (length l) 0 = true ↔ l = [].
Proof. by destruct l. Qed.

(** C2: the errors are the per-field reports in the order voltage,
    current, power factor, efficiency; [isValid] holds exactly when there
    are none; a voltage that is NaN or at most 0 and a current above
    100000 are reported. *)
Theorem validateInputs_rules (voltage current powerFactor efficiency rate : float) :
  let res := validateInputs voltage current powerFactor efficiency rate in
  (∃ ev ec ep ee : list string,
     errors res = ev ++ ec ++ ep ++ ee ∧
     reports (Violation.voltage voltage) voltage_errors ev ∧
     reports (Violation.current current) current_errors ec ∧
     reports (Violation.powerFactor powerFactor) powerFactor_errors ep ∧
     reports (Violation.efficiency efficiency) efficiency_errors ee) ∧
  (isValid res = true ↔ errors res = []) ∧
  (isValid res =
     negb (Violation.voltage voltage || Violation.current current
           || Violation.powerFactor powerFactor
           || Violation.efficiency efficiency)) ∧
  (JS.isNaN voltage = true → "Voltage is required" ∈ errors res) ∧
  (JS.isNaN voltage = false → (voltage <=? 0)%float = true →
   "Voltage must be greater than 0" ∈ errors res) ∧
  (JS.gt current 100000 = true →
   "Current exceeds maximum limit" ∈ errors res).
Proof.
  intros res.
  set (ev := if JS.isNaN voltage then ["Voltage is required"]
             else if (voltage <=? 0)%float then ["Voltage must be greater than 0"]
             else if JS.gt voltage 1000000 then ["Voltage exceeds maximum limit"]
             else []).
  set (ec := if JS.isNaN current then ["Current is required"]
             else if (current <=? 0)%float then ["Current must be greater than 0"]
             else if JS.gt current 100000 then ["Current exceeds maximum limit"]
             else []).
  set (ep := if Violation.powerFactor powerFactor
             then ["Power Factor must be between 0.5 and 1.0"] else []).
  set (ee := if Violation.efficiency efficiency
             then ["Efficiency must be between 0 and 100"] else []).
  assert (Herr : errors res = ev ++ ec ++ ep ++ ee).
  { subst res. unfold validateInputs. cbv zeta. cbn [errors].
    match goal with |- (if negb _ then _ else ?X) = _ => set (X3 := X) end.
    assert (H3 : X3 = ev ++ ec ++ ep).
    { subst X3.
      match goal with |- (if negb _ then _ else ?X) = _ => set (X2 := X) end.
      assert (H2 : X2 = ev ++ ec).
      { subst X2.
        match goal with
        | |- (if _ then _ else if _ then _ else if _ then _ else ?X) = _ =>
            set (X1 := X)
        end.
        assert (H1 : X1 = ev).
        { subst X1 ev. cbn -[JS.gt JS.isNaN].
          by destruct (JS.isNaN voltage), (voltage <=? 0)%float,
            (JS.gt voltage 1000000). }
        rewrite H1. clearbody ev. subst ec. unfold push. cbn -[JS.gt JS.isNaN].
        destruct (JS.isNaN current), (current <=? 0)%float,
          (JS.gt current 100000); by rewrite ?app_nil_r. }
      rewrite H2. clearbody ev ec. subst ep.
      unfold push, Violation.powerFactor. cbn -[JS.gt JS.isNaN].
      destruct (JS.isNaN powerFactor), (powerFactor <? 0.5)%float,
        (JS.gt powerFactor 1); cbn; by rewrite ?app_nil_r, <-?app_assoc. }
    rewrite H3. clearbody ev ec ep. subst ee.
    unfold push, Violation.efficiency. cbn -[JS.gt JS.isNaN].
    destruct (JS.isNaN efficiency), (efficiency <? 0)%float,
      (JS.gt efficiency 100); cbn; by rewrite ?app_nil_r, <-?app_assoc. }
  assert (Hev : reports (Violation.voltage voltage) voltage_errors ev).
  { subst ev. unfold reports, Violation.voltage, voltage_errors.
    destruct (JS.isNaN voltage), (voltage <=? 0)%float, (JS.gt voltage 1000000);
      simpl; eauto using list_elem_of_here, list_elem_of_further. }
  assert (Hec : reports (Violation.current current) current_errors ec).
  { subst ec. unfold reports, Violation.current, current_errors.
    destruct (JS.isNaN current), (current <=? 0)%float, (JS.gt current 100000);
      simpl; eauto using list_elem_of_here, list_elem_of_further. }
  assert (Hep : reports (Violation.powerFactor powerFactor) powerFactor_errors ep).
  { subst ep. unfold reports, powerFactor_errors.
    destruct (Violation.powerFactor powerFactor); eauto using list_elem_of_here. }
  assert (Hee : reports (Violation.efficiency efficiency) efficiency_errors ee).
  { subst ee. unfold reports, efficiency_errors.
    destruct (Violation.efficiency efficiency); eauto using list_elem_of_here. }
  split; [by exists ev, ec, ep, ee|].
  split; [apply length_eqb_0|].
  split.
  { change (isValid res) with (Nat.eqb (length (errors res)) 0). rewrite Herr.
    unfold reports in *.
    destruct (Violation.voltage voltage), (Violation.current current),
      (Violation.powerFactor powerFactor), (Violation.efficiency efficiency);
      repeat match goal with
             | H : ∃ _, _ |- _ => destruct H as (? & -> & _)
             | H : _ = [] |- _ => rewrite H
             end; reflexivity. }
  rewrite Herr. subst ev ec. split; [|split].
  - intros ->. apply list_elem_of_here.
  - intros -> ->. apply list_elem_of_here.
  - intros Hc.
    destruct (gt_positive current 100000) as [-> ->]; [by vm_compute; eauto|done|].
    rewrite Hc. apply elem_of_app. right. apply list_elem_of_here.
Qed.

Lemma validateInputs_rules_witness :
  "Voltage is required" ∈ errors (validateInputs nan 10 0.9 100 0.12) ∧
  "Voltage must be greater than 0" ∈ errors (validateInputs (-5) 10 0.9 100 0.12) ∧
  "Current exceeds maximum limit" ∈ errors (validateInputs 120 100001 0.9 100 0.12).
Proof.
  split; [|split].
  - apply (validateInputs_rules nan 10 0.9 100 0.12). reflexivity.
  - apply (validateInputs_rules (-5) 10 0.9 100 0.12); reflexivity.
  - apply (validateInputs_rules 120 100001 0.9 100 0.12). reflexivity.
Defined.

(** ** Default substitution *)

Lemma or_default_falsy (x d : float) :
  parses_to_zero x ∨ absent x → JS.or_default x d = d.
Proof.
  unfold parses_to_zero, absent, JS.or_default, JS.truthy.
  intros [-> | ->]; by rewrite ?orb_true_r.
Qed.

Lemma updateCalculations_ext (f g : Input.ParsedFields) :
  getInputValues f = getInputValues g →
  updateCalculations f = updateCalculations g.
Proof. unfold updateCalculations. by intros ->. Qed.

Lemma saveCalculation_ext (f g : Input.ParsedFields) t_id t_ts ls :
  getInputValues f = getInputValues g →
  saveCalculation f t_id t_ts ls = saveCalculation g t_id t_ts ls.
Proof. unfold saveCalculation. by intros ->. Qed.

(** ** History store *)

Section HistoryStore.

Implicit Types (ls : localStorage) (h : list HistoryItem) (a : Action).

Lemma getHistory_absent ls :
  getItem "calculationHistory" ls = None → getHistory ls = Some [].
Proof. unfold getHistory. by intros ->. Qed.

Lemma getHistory_setItem ls h :
  getHistory (setItem "calculationHistory" (JSON_stringify h) ls) = Some h.
Proof. unfold getHistory, getItem, setItem. by rewrite lookup_insert_eq. Qed.

Lemma getHistory_removeItem ls :
  getHistory (removeItem "calculationHistory" ls) = Some [].
Proof. apply getHistory_absent. unfold getItem, removeItem. apply lookup_delete_eq. Qed.

Lemma saveCalculation_invalid f t_id t_ts ls :
  validates f = false → saveCalculation f t_id t_ts ls = Some ls.
Proof. unfold validates, saveCalculation. by intros ->. Qed.

Lemma saveCalculation_valid f t_id t_ts ls h :
  validates f = true → getHistory ls = Some h →
  saveCalculation f t_id t_ts ls
  = Some (setItem "calculationHistory"
            (JSON_stringify (take 10 (saved_item f t_id t_ts :: h))) ls).
Proof.
  unfold validates, saveCalculation. intros -> ->. cbn [negb mbind option_bind].
  fold (saved_item f t_id t_ts). unfold unshift, splice_from.
  destruct (Nat.ltb_spec 10 (length (saved_item f t_id t_ts :: h))) as [?|Hle];
    [done|].
  by rewrite (take_ge _ 10 Hle).
Qed.

Lemma deleteHistoryItem_filter id ls h :
  getHistory ls = Some h →
  deleteHistoryItem id ls
  = Some (setItem "calculationHistory"
            (JSON_stringify (filter (λ item, History.id item ≠ id) h)) ls).
Proof. unfold deleteHistoryItem. by intros ->. Qed.

Lemma step_history a ls h :
  getHistory ls = Some h → length h ≤ 10 →
  ∃ ls', step a ls = Some ls' ∧ getHistory ls' = Some (history_after a h).
Proof.
  intros Hh Hlen. destruct a as [f t_id t_ts|id|[]]; simpl.
  - destruct (validates f) eqn:Hv.
    + rewrite (saveCalculation_valid _ _ _ _ h) by done.
      eexists. split; [done|]. apply getHistory_setItem.
    + rewrite saveCalculation_invalid by done.
      eexists. split; [done|]. by rewrite take_ge.
  - rewrite (deleteHistoryItem_filter _ _ h) by done.
    eexists. split; [done|]. apply getHistory_setItem.
  - eexists. split; [done|]. apply getHistory_removeItem.
  - by eexists.
Qed.

Lemma history_after_length a h : length h ≤ 10 → length (history_after a h) ≤ 10.
Proof.
  intros Hlen. destruct a as [f t_id t_ts|id|[]]; simpl; try done.
  - rewrite length_take. lia.
  - pose proof (length_filter (λ item, History.id item ≠ id) h). lia.
  - lia.
Qed.

Lemma history_after_sublist a h : history_after a h `sublist_of` created a ++ h.
Proof.
  destruct a as [f t_id t_ts|id|[]]; simpl; try done.
  - apply sublist_take.
  - apply sublist_filter.
  - apply sublist_nil_l.
Qed.

Lemma reachable_history ls :
  reachable ls → ∃ h, getHistory ls = Some h ∧ length h ≤ 10.
Proof.
  induction 1 as [ls Hfresh|a ls ls' _ (h & Hh & Hlen) Hstep].
  - exists []. split; [by apply getHistory_absent|simpl; lia].
  - destruct (step_history a ls h Hh Hlen) as (ls'' & Hstep' & Hh').
    rewrite Hstep in Hstep'. injection Hstep' as <-.
    exists (history_after a h). split; [done|]. by apply history_after_length.
Qed.

Lemma take_app_take {A} (n : nat) (l k : list A) :
  take n (l ++ take n k) = take n (l ++ k).
Proof. rewrite !take_app, take_take. do 2 f_equal. lia. Qed.

Lemma save_all_history l ls h :
  Forall (λ s, validates (fields s) = true) l →
  getHistory ls = Some h → length h ≤ 10 →
  ∃ ls', save_all l ls = Some ls' ∧
         getHistory ls' = Some (take 10 (reverse (item_of <$> l) ++ h)).
Proof.
  intros Hl. revert ls h. induction Hl as [|s l Hs _ IH]; intros ls h Hh Hlen.
  - exists ls. split; [done|]. by rewrite take_ge.
  - simpl. rewrite (saveCalculation_valid _ _ _ _ h) by done.
    cbn [mbind option_bind].
    set (ls1 := setItem _ _ ls).
    assert (Hh1 : getHistory ls1 = Some (take 10 (item_of s :: h)))
      by apply getHistory_setItem.
    destruct (IH ls1 _ Hh1) as (ls' & Hsave & Hh').
    { rewrite length_take. lia. }
    exists ls'. split; [done|].
    by rewrite Hh', take_app_take, reverse_cons, <-app_assoc.
Qed.

Lemma filter_Forall_id {A} (P : A → Prop) `{!∀ x, Decision (P x)} (l : list A) :
  Forall P l → filter P l = l.
Proof.
  induction 1 as [|x l Hx _ IH]; [done|].
  by rewrite filter_cons_True, IH.
Qed.

End HistoryStore.

(** C3: in every reachable state the history lists at most 10 entries;
    every action leaves at most 10 entries, each of them an entry listed
    before or the one just created, in the same order; a save that passes
    validation puts its entry first; and 11 such saves in a row leave the
    10 most recent entries, most recent first. *)
Theorem history_store_invariant (ls : localStorage) :
  reachable ls →
  ∃ h, getHistory ls = Some h ∧ length h ≤ 10 ∧
    (∀ a, ∃ ls' h',
       step a ls = Some ls' ∧ getHistory ls' = Some h' ∧
       length h' ≤ 10 ∧ h' `sublist_of` created a ++ h) ∧
    (∀ f t_id t_ts, validates f = true →
       ∃ ls', saveCalculation f t_id t_ts ls = Some ls' ∧
              getHistory ls' = Some (saved_item f t_id t_ts :: take 9 h)) ∧
    (∀ l, length l = 11 → Forall (λ s, validates (fields s) = true) l →
       ∃ ls', save_all l ls = Some ls' ∧
              getHistory ls' = Some (reverse (item_of <$> drop 1 l))).
Proof.
  intros Hreach. destruct (reachable_history ls Hreach) as (h & Hh & Hlen).
  exists h. split; [done|]. split; [done|]. split; [|split].
  - intros a. destruct (step_history a ls h Hh Hlen) as (ls' & Hstep & Hh').
    exists ls', (history_after a h). split; [done|]. split; [done|].
    split; [by apply history_after_length|apply history_after_sublist].
  - intros f t_id t_ts Hv. eexists. split; [by apply saveCalculation_valid|].
    by rewrite getHistory_setItem.
  - intros l Hl Hvalid.
    destruct (save_all_history l ls h Hvalid Hh Hlen) as (ls' & Hsave & Hh').
    exists ls'. split; [done|]. rewrite Hh'. f_equal.
    rewrite take_app_le by (rewrite length_reverse, length_fmap; lia).
    rewrite take_reverse, length_fmap, Hl, fmap_drop. done.
Qed.

Lemma history_store_invariant_witness :
  let l := sample_request <$> [1; 2; 3; 4; 5; 6; 7; 8; 9; 10; 11]%Z in
  ∃ ls', save_all l ∅ = Some ls' ∧
         getHistory ls'
         = Some (item_of <$> (sample_request
                   <$> [11; 10; 9; 8; 7; 6; 5; 4; 3; 2]%Z)).
Proof.
  intros l.
  destruct (history_store_invariant ∅) as (h & _ & _ & _ & _ & H11).
  { apply reachable_fresh. reflexivity. }
  apply (H11 l); [reflexivity|].
  repeat (constructor; [reflexivity|]). constructor.
Defined.

(** C6: deleting an id that no entry has leaves the listed history as it
    was; otherwise the listed history is the old list with exactly the
    entries of that id taken out, each other entry kept at its place and
    as often as it occurred, and no other key of the storage changes. *)
Theorem deleteHistoryItem_frame (ls : localStorage) (h : list HistoryItem)
    (id : string) :
  getHistory ls = Some h →
  ∃ ls' h',
    deleteHistoryItem id ls = Some ls' ∧ getHistory ls' = Some h' ∧
    h' = filter (λ item, History.id item ≠ id) h ∧
    (Forall (λ item, History.id item ≠ id) h → h' = h) ∧
    (∀ item, item ∈ h' ↔ item ∈ h ∧ History.id item ≠ id) ∧
    h' `sublist_of` h ∧
    (∀ key, key ≠ "calculationHistory" → getItem key ls' = getItem key ls).
Proof.
  intros Hh. eexists _, (filter (λ item, History.id item ≠ id) h).
  split; [by apply deleteHistoryItem_filter|].
  split; [apply getHistory_setItem|].
  split; [done|].
  split; [apply filter_Forall_id; apply _|].
  split; [|split].
  - intros item. rewrite list_elem_of_filter. tauto.
  - apply sublist_filter.
  - intros key Hkey. unfold getItem, setItem. by rewrite lookup_insert_ne.
Qed.

Lemma deleteHistoryItem_frame_witness :
  let h := [item_of (sample_request 2); item_of (sample_request 1);
            item_of (sample_request 2)] in
  let ls : localStorage := {[ "calculationHistory" := JSON_stringify h ]} in
  ∃ ls',
    deleteHistoryItem "1" ls = Some ls' ∧
    getHistory ls'
    = Some [item_of (sample_request 2); item_of (sample_request 2)].
Proof.
  intros h ls.
  destruct (deleteHistoryItem_frame ls h "1")
    as (ls' & h' & Hd & Hh & Heq & _).
  { reflexivity. }
  exists ls'. split; [exact Hd|]. rewrite Hh, Heq. reflexivity.
Defined.

(** C7: after a confirmed clear the key is gone and the history lists as
    empty; the history lists as empty whenever the key is absent. *)
Theorem clearHistory_then_list (ls : localStorage) :
  getItem "calculationHistory" (clearHistory true ls) = None ∧
  getHistory (clearHistory true ls) = Some [] ∧
  (getItem "calculationHistory" ls = None → getHistory ls = Some []).
Proof.
  split; [apply lookup_delete_eq|].
  split; [apply getHistory_removeItem|apply getHistory_absent].
Qed.

Lemma clearHistory_then_list_witness :
  getHistory ({[ "theme" := Str "dark" ]} : localStorage) = Some [].
Proof.
  apply (clearHistory_then_list {[ "theme" := Str "dark" ]}). reflexivity.
Defined.

(** * Further properties of the code *)

(** ** Order and arithmetic on binary64 values *)

Section FloatOrder.

Lemma SFcompare_finite_swap s1 m1 e1 s2 m2 e2 :
  SFcompare (S754_finite s2 m2 e2) (S754_finite s1 m1 e1)
  = CompOpp <$> SFcompare (S754_finite s1 m1 e1) (S754_finite s2 m2 e2).
Proof.
  pose proof (Z.compare_antisym e1 e2
    : IntDef.Z.compare e2 e1 = CompOpp (IntDef.Z.compare e1 e2)) as He.
  pose proof (Pos.compare_antisym m1 m2
    : PosDef.Pos.compare_cont Eq m2 m1
      = CompOpp (PosDef.Pos.compare_cont Eq m1 m2)) as Hm.
  simpl. rewrite He, Hm.
  destruct s1, s2; try done; destruct (IntDef.Z.compare e1 e2); simpl; try done;
    by destruct (PosDef.Pos.compare_cont Eq m1 m2).
Qed.

Lemma SFcompare_swap x y : SFcompare y x = CompOpp <$> SFcompare x y.
Proof.
  destruct x as [s1|s1| |s1 m1 e1], y as [s2|s2| |s2 m2 e2];
    try apply SFcompare_finite_swap; simpl; try done;
    try (by destruct s1); try (by destruct s2); by destruct s1, s2.
Qed.

Lemma SFcompare_not_nan x y :
  x ≠ S754_nan → y ≠ S754_nan → is_Some (SFcompare x y).
Proof. destruct x, y; simpl; try done; eauto. Qed.

Lemma Prim2SF_not_nan x : JS.isNaN x = false → Prim2SF x ≠ S754_nan.
Proof. rewrite isNaN_Prim2SF. by destruct (Prim2SF x). Qed.

(** On numbers, [x <= y] is the negation of [x > y]. *)
Lemma leb_negb_gt (x y : float) :
  JS.isNaN x = false → JS.isNaN y = false →
  (x <=? y)%float = negb (JS.gt x y).
Proof.
  intros Hx%Prim2SF_not_nan Hy%Prim2SF_not_nan. unfold JS.gt.
  rewrite FloatAxioms.leb_spec, FloatAxioms.ltb_spec.
  unfold SFleb, SFltb. rewrite (SFcompare_swap (Prim2SF x)).
  destruct (SFcompare_not_nan (Prim2SF x) (Prim2SF y)) as [c ->]; [done..|].
  by destruct c.
Qed.

(** On numbers, [x < y] is the negation of [y <= x]. *)
Lemma ltb_negb_ge (x y : float) :
  JS.isNaN x = false → JS.isNaN y = false →
  (x <? y)%float = negb (y <=? x)%float.
Proof.
  intros Hx%Prim2SF_not_nan Hy%Prim2SF_not_nan.
  rewrite FloatAxioms.leb_spec, FloatAxioms.ltb_spec.
  unfold SFleb, SFltb. rewrite (SFcompare_swap (Prim2SF x)).
  destruct (SFcompare_not_nan (Prim2SF x) (Prim2SF y)) as [c ->]; [done..|].
  by destruct c.
Qed.

(** A number that is at least 0 and not a zero is above 0. *)
Lemma ltb_0_of_leb (x : float) :
  (0 <=? x)%float = true → (x =? 0)%float = false → (0 <? x)%float = true.
Proof.
  rewrite FloatAxioms.leb_spec, FloatAxioms.ltb_spec, FloatAxioms.eqb_spec.
  change (Prim2SF 0) with (S754_zero false).
  by destruct (Prim2SF x) as [s|[]| |[] m e].
Qed.

Lemma shl52 (m : positive) :
  PosDef.Pos.mul m 4503599627370496 = Pos.iter xO m 52.
Proof.
  change (PosDef.Pos.mul m 4503599627370496) with (Pos.mul m 4503599627370496).
  rewrite Pos.mul_comm. reflexivity.
Qed.

(** Rounding a canonical mantissa that was scaled by 2^52 gives the
    mantissa back. *)
Lemma binary_round_aux_shl52 s (m : positive) (e : Z) :
  bounded prec emax m e = true →
  binary_round_aux prec emax s (Zpos (PosDef.Pos.mul m 4503599627370496))
    (Z.add e (-52)) loc_Exact
  = S754_finite s m e.
Proof.
  intros Hb. unfold bounded, canonical_mantissa in Hb.
  apply andb_prop in Hb as [Hc He]. apply Z.eqb_eq in Hc.
  rewrite shl52. unfold binary_round_aux.
  assert (H1 : shr_fexp prec emax (Z.pos (Pos.iter xO m 52)) (e + -52) loc_Exact
               = ({| shr_m := Z.pos m; shr_r := false; shr_s := false |}, e)).
  { unfold shr_fexp.
    assert (Hd : (Zdigits2 (Z.pos (Pos.iter xO m 52)) + (e + -52)
                  = Z.pos (digits2_pos m) + e)%Z).
    { cbn. lia. }
    rewrite Hd, Hc.
    replace (e - (e + -52))%Z with 52%Z by lia.
    cbn. f_equal. lia. }
  rewrite H1. cbn [shr_m loc_of_shr_record round_nearest_even].
  assert (H2 : shr_fexp prec emax (Z.pos m) e loc_Exact
               = ({| shr_m := Z.pos m; shr_r := false; shr_s := false |}, e)).
  { unfold shr_fexp. cbn [Zdigits2]. rewrite Hc, Z.sub_diag. reflexivity. }
  rewrite H2. cbn [shr_m]. by rewrite He.
Qed.

(** Multiplying by 1 is exact. *)
Lemma mul_1_r (x : float) : (x * 1)%float = x.
Proof.
  apply Prim2SF_inj. rewrite FloatAxioms.mul_spec.
  change (Prim2SF 1) with (S754_finite false 4503599627370496 (-52)).
  pose proof (Prim2SF_valid x) as Hv.
  destruct (Prim2SF x) as [s|s| |s m e]; simpl in *;
    rewrite ?xorb_false_r; try done.
  by apply binary_round_aux_shl52.
Qed.

End FloatOrder.

(** ** Validation and default substitution *)

Lemma validateInputs_errors (voltage current powerFactor efficiency rate : float) :
  errors (validateInputs voltage current powerFactor efficiency rate)
  = (if JS.isNaN voltage then ["Voltage is required"]
     else if (voltage <=? 0)%float then ["Voltage must be greater than 0"]
     else if JS.gt voltage 1000000 then ["Voltage exceeds maximum limit"]
     else [])
    ++ (if JS.isNaN current then ["Current is required"]
        else if (current <=? 0)%float then ["Current must be greater than 0"]
        else if JS.gt current 100000 then ["Current exceeds maximum limit"]
        else [])
    ++ (if Violation.powerFactor powerFactor
        then ["Power Factor must be between 0.5 and 1.0"] else [])
    ++ (if Violation.efficiency efficiency
        then ["Efficiency must be between 0 and 100"] else []).
Proof.
  set (ev := if JS.isNaN voltage then _ else _).
  set (ec := if JS.isNaN current then _ else _).
  set (ep := if Violation.powerFactor powerFactor then _ else _).
  set (ee := if Violation.efficiency efficiency then _ else _).
  unfold validateInputs. cbv zeta. cbn [errors].
  match goal with |- (if negb _ then _ else ?X) = _ => set (X3 := X) end.
  assert (H3 : X3 = ev ++ ec ++ ep).
  { subst X3.
    match goal with |- (if negb _ then _ else ?X) = _ => set (X2 := X) end.
    assert (H2 : X2 = ev ++ ec).
    { subst X2.
      match goal with
      | |- (if _ then _ else if _ then _ else if _ then _ else ?X) = _ =>
          set (X1 := X)
      end.
      assert (H1 : X1 = ev).
      { subst X1 ev. cbn -[JS.gt JS.isNaN].
        by destruct (JS.isNaN voltage), (voltage <=? 0)%float,
          (JS.gt voltage 1000000). }
      rewrite H1. clearbody ev. subst ec. unfold push. cbn -[JS.gt JS.isNaN].
      destruct (JS.isNaN current), (current <=? 0)%float,
        (JS.gt current 100000); by rewrite ?app_nil_r. }
    rewrite H2. clearbody ev ec. subst ep.
    unfold push, Violation.powerFactor. cbn -[JS.gt JS.isNaN].
    destruct (JS.isNaN powerFactor), (powerFactor <? 0.5)%float,
      (JS.gt powerFactor 1); cbn; by rewrite ?app_nil_r, <-?app_assoc. }
  rewrite H3. clearbody ev ec ep. subst ee.
  unfold push, Violation.efficiency. cbn -[JS.gt JS.isNaN].
  destruct (JS.isNaN efficiency), (efficiency <? 0)%float,
    (JS.gt efficiency 100); cbn; by rewrite ?app_nil_r, <-?app_assoc.
Qed.

Lemma isValid_errors (voltage current powerFactor efficiency rate : float) :
  isValid (validateInputs voltage current powerFactor efficiency rate)
  = Nat.eqb
      (length (errors (validateInputs voltage current powerFactor efficiency rate)))
      0.
Proof. reflexivity. Qed.

Lemma isValid_violations (voltage current powerFactor efficiency rate : float) :
  isValid (validateInputs voltage current powerFactor efficiency rate)
  = negb (Violation.voltage voltage || Violation.current current
          || Violation.powerFactor powerFactor
          || Violation.efficiency efficiency).
Proof.
  rewrite isValid_errors, validateInputs_errors.
  unfold Violation.voltage, Violation.current.
  destruct (JS.isNaN voltage), (voltage <=? 0)%float, (JS.gt voltage 1000000),
    (JS.isNaN current), (current <=? 0)%float, (JS.gt current 100000),
    (Violation.powerFactor powerFactor), (Violation.efficiency efficiency);
    reflexivity.
Qed.

Lemma ltb_true_not_nan (x y : float) :
  (x <? y)%float = true → JS.isNaN x = false ∧ JS.isNaN y = false.
Proof.
  rewrite !isNaN_Prim2SF, FloatAxioms.ltb_spec. unfold SFltb.
  by destruct (Prim2SF x) as [|[]| |], (Prim2SF y) as [|[]| |].
Qed.

Lemma leb_true_not_nan (x y : float) :
  (x <=? y)%float = true → JS.isNaN x = false ∧ JS.isNaN y = false.
Proof.
  rewrite !isNaN_Prim2SF, FloatAxioms.leb_spec. unfold SFleb.
  by destruct (Prim2SF x) as [|[]| |], (Prim2SF y) as [|[]| |].
Qed.

Lemma ltb_leb (x y : float) : (x <? y)%float = true → (x <=? y)%float = true.
Proof.
  rewrite FloatAxioms.ltb_spec, FloatAxioms.leb_spec. unfold SFltb, SFleb.
  by destruct (SFcompare _ _) as [[]|].
Qed.

Lemma truthy_spec (x : float) :
  JS.truthy x = true ↔ JS.isNaN x = false ∧ (x =? 0)%float = false.
Proof.
  unfold JS.truthy.
  destruct (JS.isNaN x), (x =? 0)%float; simpl; split; try done; by intros [].
Qed.

(** A required field passes its rule when it is above 0 and at most the
    maximum [k]. *)
Lemma required_rule_ok (x k : float) :
  JS.isNaN k = false →
  JS.isNaN x || (x <=? 0)%float || JS.gt x k = false ↔ above_upto 0 k x.
Proof.
  intros Hk. unfold above_upto. rewrite !orb_false_iff. split.
  - intros [[Hn H0] Hgt].
    rewrite (ltb_negb_ge 0), H0, leb_negb_gt, Hgt by done. done.
  - intros [H0 Hle]. destruct (ltb_true_not_nan _ _ H0) as [_ Hn].
    rewrite ltb_negb_ge in H0 by done. rewrite leb_negb_gt in Hle by done.
    by apply negb_true_iff in H0, Hle.
Qed.

(** An optional field that holds a number passes its rule when it is
    from [lo] to [hi]. *)
Lemma optional_rule_ok (x lo hi : float) :
  JS.isNaN lo = false → JS.isNaN hi = false → JS.isNaN x = false →
  negb (JS.isNaN x) && ((x <? lo)%float || JS.gt x hi) = false
  ↔ between lo hi x.
Proof.
  intros Hlo Hhi Hx. unfold between. rewrite Hx. cbn [negb andb].
  rewrite orb_false_iff, (ltb_negb_ge x lo), (leb_negb_gt x hi) by done.
  rewrite !negb_true_iff, negb_false_iff. done.
Qed.

Lemma or_default_truthy (x d : float) :
  JS.truthy d = true → JS.truthy (JS.or_default x d) = true.
Proof. unfold JS.or_default. by destruct (JS.truthy x) eqn:Hx. Qed.

Lemma or_default_idemp (x d : float) :
  JS.or_default (JS.or_default x d) d = JS.or_default x d.
Proof.
  unfold JS.or_default. destruct (JS.truthy x) eqn:Hx; [by rewrite Hx|].
  by destruct (JS.truthy d).
Qed.

Lemma getInputValues_truthy (f : Input.ParsedFields) :
  let v := getInputValues f in
  JS.truthy (Input.powerFactor v) = true ∧
  JS.truthy (Input.efficiency v) = true ∧
  JS.truthy (Input.rate v) = true.
Proof. intros v. repeat split; by apply or_default_truthy. Qed.

(** X1: whatever the fields hold, the power factor, efficiency and rate
    that reach validation and calculation are numbers other than zero. *)
Theorem getInputValues_never_falsy (f : Input.ParsedFields) :
  let v := getInputValues f in
  Forall (λ x, JS.isNaN x = false ∧ (x =? 0)%float = false)
    [Input.powerFactor v; Input.efficiency v; Input.rate v].
Proof.
  intros v. destruct (getInputValues_truthy f) as (Hp & He & Hr).
  repeat constructor; by apply truthy_spec.
Qed.

(** X2: entering the substituted values back into the fields changes
    nothing: the values read, the validation and the display are the
    same. *)
Theorem getInputValues_idempotent (f : Input.ParsedFields) :
  let g := fields_of_values (getInputValues f) in
  getInputValues g = getInputValues f ∧
  validates g = validates f ∧
  updateCalculations g = updateCalculations f.
Proof.
  intros g.
  assert (Hg : getInputValues g = getInputValues f).
  { subst g. unfold getInputValues, fields_of_values. cbn.
    by rewrite !or_default_idemp. }
  split; [done|]. split; [|by apply updateCalculations_ext].
  unfold validates. by rewrite Hg.
Qed.

(** X3: [updateCalculations] shows the results exactly when the inputs
    pass validation, and otherwise a list of errors that is never
    empty. *)
Theorem updateCalculations_display (f : Input.ParsedFields) :
  let v := getInputValues f in
  match updateCalculations f with
  | displayResults r =>
      validates f = true ∧
      r = calculatePower (Input.voltage v) (Input.current v) (Input.phase v)
            (Input.powerFactor v) (Input.efficiency v) (Input.rate v)
  | displayErrors es =>
      validates f = false ∧ es ≠ [] ∧ length es ≤ 4 ∧
      es = errors (validateInputs (Input.voltage v) (Input.current v)
                     (Input.powerFactor v) (Input.efficiency v) (Input.rate v))
  end.
Proof.
  intros v. unfold updateCalculations, validates. fold v.
  destruct (isValid _) eqn:Hv; cbn [negb]; [done|].
  split; [done|]. split; [|split; [|done]].
  - rewrite isValid_errors in Hv. intros Hnil. by rewrite Hnil in Hv.
  - rewrite validateInputs_errors.
    repeat match goal with |- context [if ?b then _ else _] => destruct b end;
      simpl; lia.
Qed.

(** With a power factor and an efficiency that are numbers, the four
    rules hold exactly when the four values are in range. *)
Lemma violations_ranges (V I PF E : float) :
  JS.isNaN PF = false → JS.isNaN E = false → (E =? 0)%float = false →
  Violation.voltage V || Violation.current I
    || Violation.powerFactor PF || Violation.efficiency E = false
  ↔ above_upto 0 1000000 V ∧ above_upto 0 100000 I ∧
    between 0.5 1 PF ∧ above_upto 0 100 E.
Proof.
  intros Hp He He0. rewrite !orb_false_iff.
  unfold Violation.voltage, Violation.current, Violation.powerFactor,
    Violation.efficiency.
  rewrite !required_rule_ok, !optional_rule_ok by done.
  assert (Heff : between 0 100 E ↔ above_upto 0 100 E).
  { unfold between, above_upto. split; intros [H0 H1]; (split; [|done]).
    - by apply ltb_0_of_leb.
    - by apply ltb_leb. }
  rewrite Heff. tauto.
Qed.

(** X4: the inputs pass validation exactly when the voltage is above 0
    and at most 1000000, the current is above 0 and at most 100000, the
    power factor is from 0.5 to 1 and the efficiency is above 0 and at
    most 100, all after default substitution. *)
Theorem validates_iff_in_range (f : Input.ParsedFields) :
  let v := getInputValues f in
  validates f = true ↔
  above_upto 0 1000000 (Input.voltage v) ∧
  above_upto 0 100000 (Input.current v) ∧
  between 0.5 1 (Input.powerFactor v) ∧
  above_upto 0 100 (Input.efficiency v).
Proof.
  intros v. unfold validates. fold v.
  rewrite isValid_violations, negb_true_iff.
  destruct (getInputValues_truthy f) as (Hp & He & _). fold v in Hp, He.
  apply truthy_spec in Hp as [Hp _]. apply truthy_spec in He as [He He0].
  by apply violations_ranges.
Qed.

Lemma validates_iff_in_range_witness :
  let v := getInputValues sample_fields in
  above_upto 0 1000000 (Input.voltage v) ∧
  above_upto 0 100000 (Input.current v) ∧
  between 0.5 1 (Input.powerFactor v) ∧
  above_upto 0 100 (Input.efficiency v).
Proof.
  apply (proj1 (validates_iff_in_range sample_fields)). reflexivity.
Defined.

(** ** More on the history store *)

Section HistoryStoreMore.

Implicit Types (ls : localStorage) (h : list HistoryItem) (a : Action).

Lemma saved_item_sound f t_id t_ts :
  validates f = true → item_sound (saved_item f t_id t_ts).
Proof.
  intros Hv. split; [|split; [done|by eauto]].
  destruct (getInputValues_truthy f) as (Hp & He & Hr).
  pose proof Hp as [Hp1 _]%truthy_spec. pose proof He as [He1 He0]%truthy_spec.
  unfold validates in Hv. rewrite isValid_violations, negb_true_iff in Hv.
  apply violations_ranges in Hv as (? & ? & ? & ?); [|done..].
  unfold item_in_range. cbn [History.voltage History.current
    History.powerFactor History.efficiency History.rate saved_item].
  done.
Qed.

Lemma history_after_sound a h :
  Forall item_sound h → Forall item_sound (history_after a h).
Proof.
  intros Hh. destruct a as [f t_id t_ts|id|[]]; simpl; try done.
  - apply Forall_take, Forall_app. split; [|done].
    destruct (validates f) eqn:Hv; [|done].
    repeat constructor; by apply saved_item_sound.
  - rewrite Forall_forall in Hh |- *.
    intros item [_ Hin]%list_elem_of_filter. by apply Hh.
Qed.

Lemma reachable_sound ls :
  reachable ls →
  ∃ h, getHistory ls = Some h ∧ length h ≤ 10 ∧ Forall item_sound h.
Proof.
  induction 1 as [ls Hfresh|a ls ls' _ (h & Hh & Hlen & Hs) Hstep].
  - exists []. split; [by apply getHistory_absent|]. split; [simpl; lia|done].
  - destruct (step_history a ls h Hh Hlen) as (ls'' & Hstep' & Hh').
    rewrite Hstep in Hstep'. injection Hstep' as <-.
    exists (history_after a h). split; [done|].
    split; [by apply history_after_length|by apply history_after_sound].
Qed.

Lemma step_cases a ls ls' :
  step a ls = Some ls' →
  ls' = ls ∨ ls' = removeItem "calculationHistory" ls ∨
  ∃ h', ls' = setItem "calculationHistory" (JSON_stringify h') ls.
Proof.
  destruct a as [f t_id t_ts|id|[]]; simpl.
  - unfold saveCalculation. destruct (negb _); [naive_solver|].
    destruct (getHistory ls); simpl; naive_solver.
  - unfold deleteHistoryItem. destruct (getHistory ls); simpl; naive_solver.
  - naive_solver.
  - naive_solver.
Qed.

Lemma step_getItem_ne a ls ls' key :
  step a ls = Some ls' → key ≠ "calculationHistory" →
  getItem key ls' = getItem key ls.
Proof.
  intros [->|[->|[h' ->]]]%step_cases Hkey; [done|..];
    unfold getItem, removeItem, setItem.
  - by rewrite lookup_delete_ne.
  - by rewrite lookup_insert_ne.
Qed.

End HistoryStoreMore.

(** X5: every entry listed in a reachable state has a stored voltage,
    current, power factor and efficiency within the validation ranges, and
    stored power figures that derive from them: the apparent power by one
    of the two phase formulas, the real power from the power factor, the
    adjusted power from the efficiency. *)
Theorem history_entries_valid (ls : localStorage) (h : list HistoryItem) :
  reachable ls → getHistory ls = Some h →
  Forall item_figures_derived h.
Proof.
  intros (h' & Hh' & _ & Hs)%reachable_sound Hh.
  rewrite Hh in Hh'. injection Hh' as <-.
  eapply Forall_impl; [exact Hs|].
  intros item ((HV & HI & HP & HE & _) & Hc & _).
  unfold item_figures_derived. cbv zeta. rewrite Hc, calculatePower_unfold.
  cbn [Algorithm.calculate kva kw adjustedPower pf].
  unfold Algorithm.apparentPower.
  repeat (split; [done|]).
  split; [|done]. destruct (JS.strict_eq _ 1); [by left|by right].
Qed.

Lemma history_entries_valid_witness :
  Forall item_figures_derived [item_of (sample_request 1)].
Proof.
  apply (history_entries_valid
           (<["calculationHistory" := Json [item_of (sample_request 1)]]> ∅)).
  - eapply (reachable_step (Save sample_fields 1 1) ∅).
    + apply reachable_fresh. reflexivity.
    + reflexivity.
  - reflexivity.
Defined.

(** X6: the history and the theme do not interfere: a history action
    changes no key other than [calculationHistory], so the theme the page
    starts with stays the same; toggling the theme changes no key other
    than [theme], so the listed history stays the same. *)
Theorem history_theme_frame (ls : localStorage) (p : Page) :
  (∀ a ls', step a ls = Some ls' →
     (∀ key, key ≠ "calculationHistory" → getItem key ls' = getItem key ls) ∧
     initTheme ls' p = initTheme ls p) ∧
  (∀ key, key ≠ "theme" →
     getItem key (toggleTheme ls p).1 = getItem key ls) ∧
  getHistory (toggleTheme ls p).1 = getHistory ls.
Proof.
  split; [|split].
  - intros a ls' Hstep. split; [intros key; by apply (step_getItem_ne a)|].
    unfold initTheme. by rewrite (step_getItem_ne a ls ls' "theme").
  - intros key Hkey. unfold toggleTheme, getItem, setItem. cbn [fst].
    by rewrite lookup_insert_ne.
  - unfold getHistory, toggleTheme, getItem, setItem. cbn [fst].
    by rewrite lookup_insert_ne.
Qed.

Lemma history_theme_frame_witness :
  let ls : localStorage := {[ "theme" := Str "dark" ]} in
  let p := {| data_theme := None; theme_icon := Some "" |} in
  ∃ ls', saveCalculation sample_fields 1 1 ls = Some ls' ∧
         getItem "theme" ls' = Some (Str "dark") ∧
         initTheme ls' p = initTheme ls p.
Proof.
  intros ls p. eexists. split; [reflexivity|].
  destruct (history_theme_frame ls p) as (Hstep & _).
  destruct (Hstep (Save sample_fields 1 1) _ eq_refl) as [Hkey Hinit].
  split; [|exact Hinit]. rewrite Hkey; [reflexivity|discriminate].
Defined.

(** X7: after [deleteHistoryItem id] no listed entry has that id, and
    deleting the same id again leaves the storage as it is. *)
Theorem deleteHistoryItem_idempotent (ls : localStorage)
    (h : list HistoryItem) (id : string) :
  getHistory ls = Some h →
  ∃ ls' h',
    deleteHistoryItem id ls = Some ls' ∧ getHistory ls' = Some h' ∧
    Forall (λ item, History.id item ≠ id) h' ∧
    deleteHistoryItem id ls' = Some ls'.
Proof.
  intros Hh.
  set (h' := filter (λ item, History.id item ≠ id) h).
  assert (Hall : Forall (λ item, History.id item ≠ id) h').
  { apply Forall_forall. by intros item [? _]%list_elem_of_filter. }
  eexists _, h'. split; [by apply deleteHistoryItem_filter|].
  split; [apply getHistory_setItem|]. split; [done|].
  rewrite (deleteHistoryItem_filter id _ h') by apply getHistory_setItem.
  rewrite filter_Forall_id by done.
  unfold setItem. by rewrite insert_insert_eq.
Qed.

Lemma deleteHistoryItem_idempotent_witness :
  let h := [item_of (sample_request 2); item_of (sample_request 1)] in
  let ls : localStorage := {[ "calculationHistory" := JSON_stringify h ]} in
  ∃ ls', deleteHistoryItem "2" ls = Some ls' ∧
         deleteHistoryItem "2" ls' = Some ls'.
Proof.
  intros h ls.
  destruct (deleteHistoryItem_idempotent ls h "2") as (ls' & h' & Hd & _ & _ & Hi).
  { reflexivity. }
  exists ls'. split; [exact Hd|exact Hi].
Defined.

(** X8: two deletions give the same storage in either order. *)
Theorem deleteHistoryItem_commute (ls : localStorage) (h : list HistoryItem)
    (id1 id2 : string) :
  getHistory ls = Some h →
  ∃ ls',
    deleteHistoryItem id1 ls ≫= deleteHistoryItem id2 = Some ls' ∧
    deleteHistoryItem id2 ls ≫= deleteHistoryItem id1 = Some ls' ∧
    getHistory ls'
    = Some (filter (λ item, History.id item ≠ id1
                            ∧ History.id item ≠ id2) h).
Proof.
  intros Hh.
  rewrite !(deleteHistoryItem_filter _ ls h) by done. cbn [mbind option_bind].
  rewrite !(deleteHistoryItem_filter _ _ _ (getHistory_setItem _ _)).
  rewrite !list_filter_filter. unfold setItem. rewrite !insert_insert_eq.
  eexists. split; [|split].
  - reflexivity.
  - do 3 f_equal. apply list_filter_iff. tauto.
  - fold (setItem "calculationHistory"
            (JSON_stringify
               (filter (λ a, History.id a ≠ id2 ∧ History.id a ≠ id1) h)) ls).
    rewrite getHistory_setItem. f_equal. apply list_filter_iff. tauto.
Qed.

Lemma deleteHistoryItem_commute_witness :
  let h := [item_of (sample_request 3); item_of (sample_request 2);
            item_of (sample_request 1)] in
  let ls : localStorage := {[ "calculationHistory" := JSON_stringify h ]} in
  deleteHistoryItem "1" ls ≫= deleteHistoryItem "3"
  = deleteHistoryItem "3" ls ≫= deleteHistoryItem "1".
Proof.
  intros h ls.
  destruct (deleteHistoryItem_commute ls h "1" "3") as (ls' & H1 & H2 & _).
  { reflexivity. }
  rewrite H1, H2. reflexivity.
Defined.

(** X9: saving a sequence of calculations that all pass validation lists
    the new entries newest first, followed by the entries listed before,
    cut after the tenth; the listed count is the smaller of 10 and the
    total. *)
Theorem save_all_lists_newest_first (l : list SaveRequest)
    (ls : localStorage) (h : list HistoryItem) :
  Forall (λ s, validates (fields s) = true) l →
  getHistory ls = Some h → length h ≤ 10 →
  ∃ ls' h',
    save_all l ls = Some ls' ∧ getHistory ls' = Some h' ∧
    h' = take 10 (reverse (item_of <$> l) ++ h) ∧
    length h' = Nat.min 10 (length l + length h).
Proof.
  intros Hl Hh Hlen.
  destruct (save_all_history l ls h Hl Hh Hlen) as (ls' & Hsave & Hh').
  eexists ls', _. split; [done|]. split; [done|]. split; [done|].
  by rewrite length_take, length_app, length_reverse, length_fmap.
Qed.

Lemma save_all_lists_newest_first_witness :
  ∃ ls', save_all (sample_request <$> [1; 2; 3]%Z) ∅ = Some ls' ∧
         getHistory ls'
         = Some (item_of <$> (sample_request <$> [3; 2; 1]%Z)).
Proof.
  destruct (save_all_lists_newest_first (sample_request <$> [1; 2; 3]%Z) ∅ [])
    as (ls' & h' & Hs & Hh & -> & _).
  - repeat (constructor; [reflexivity|]). constructor.
  - reflexivity.
  - simpl. lia.
  - exists ls'. split; [exact Hs|]. rewrite Hh. reflexivity.
Defined.

(** X10: an entry's id is the decimal form of the clock reading, so two
    entries share an id exactly when they were saved at the same reading.
    Saving an entry and then deleting it by its id, when no older entry
    has that id, gives back the first 9 entries listed before: the saved
    list itself unless it was full, in which case its oldest entry is
    lost. *)
Theorem save_then_delete (f : Input.ParsedFields) (t_id t_ts : Z)
    (ls : localStorage) (h : list HistoryItem) :
  getHistory ls = Some h → length h ≤ 10 → validates f = true →
  Forall (λ item, History.id item ≠ pretty t_id) h →
  (∀ g u_id u_ts,
     History.id (saved_item g u_id u_ts) = History.id (saved_item f t_id t_ts)
     ↔ u_id = t_id) ∧
  ∃ ls1 ls2,
    saveCalculation f t_id t_ts ls = Some ls1 ∧
    deleteHistoryItem (pretty t_id) ls1 = Some ls2 ∧
    getHistory ls2 = Some (take 9 h) ∧
    (length h < 10 → getHistory ls2 = Some h).
Proof.
  intros Hh Hlen Hv Hids. split.
  { intros g u_id u_ts. cbn [History.id saved_item].
    split; [apply (inj pretty)|by intros ->]. }
  eexists _, _. split; [by apply saveCalculation_valid|].
  split; [apply deleteHistoryItem_filter, getHistory_setItem|].
  rewrite getHistory_setItem. cbn [take].
  rewrite filter_cons_False by (cbn [History.id saved_item]; naive_solver).
  rewrite filter_Forall_id by by apply Forall_take.
  split; [done|]. intros Hlt. by rewrite take_ge by lia.
Qed.

Lemma save_then_delete_witness :
  let ls : localStorage :=
    {[ "calculationHistory" := JSON_stringify [item_of (sample_request 1)] ]} in
  ∃ ls1 ls2,
    saveCalculation sample_fields 2 2 ls = Some ls1 ∧
    deleteHistoryItem "2" ls1 = Some ls2 ∧
    getHistory ls2 = Some [item_of (sample_request 1)].
Proof.
  intros ls.
  destruct (save_then_delete sample_fields 2 2 ls [item_of (sample_request 1)])
    as (_ & ls1 & ls2 & Hs & Hd & _ & Hh).
  - reflexivity.
  - simpl. lia.
  - reflexivity.
  - repeat constructor. discriminate.
  - exists ls1, ls2. split; [exact Hs|]. split; [exact Hd|].
    apply Hh. simpl. lia.
Defined.

(** ** Theme *)

Lemma toggleTheme_new_theme (ls : localStorage) (p : Page) :
  ∃ t, (t = "light" ∨ t = "dark") ∧
       (t = "light" ↔ ∃ b, data_theme p = Some b ∧ blob_is b "dark" = true) ∧
       toggleTheme ls p
       = (setItem "theme" (Str t) ls,
          updateThemeIcon (Str t) (setAttribute_data_theme (Str t) p)).
Proof.
  unfold toggleTheme. destruct (data_theme p) as [b|] eqn:Hp.
  - destruct (blob_is b "dark") eqn:Hb.
    + exists "light". split; [by left|]. split; [|done]. split; [by eauto|done].
    + exists "dark". split; [by right|]. split; [|done].
      split; [done|]. intros (b' & [= <-] & Hb'). congruence.
  - exists "dark". split; [by right|]. split; [|done].
    split; [done|]. by intros (b' & ? & _).
Qed.

(** X11: after [toggleTheme] the stored theme and the [data-theme]
    attribute hold the same name, which is light when the attribute was
    dark and dark in every other case, and the icon, when the page has
    one, is the sun for dark and the moon for light; a second toggle
    gives the other name. *)
Theorem toggleTheme_sync (ls : localStorage) (p : Page) :
  let ls1 := (toggleTheme ls p).1 in
  let p1 := (toggleTheme ls p).2 in
  ∃ t,
    (t = "light" ∨ t = "dark") ∧
    (t = "light" ↔ ∃ b, data_theme p = Some b ∧ blob_is b "dark" = true) ∧
    getItem "theme" ls1 = Some (Str t) ∧
    data_theme p1 = Some (Str t) ∧
    theme_icon p1
    = (λ _, if String.eqb t "dark" then "☀️" else "🌙") <$> theme_icon p ∧
    data_theme (toggleTheme ls1 p1).2
    = Some (Str (if String.eqb t "dark" then "light" else "dark")).
Proof.
  intros ls1 p1. destruct (toggleTheme_new_theme ls p) as (t & Ht & Hiff & Heq).
  subst ls1 p1. rewrite Heq. cbn [fst snd]. exists t.
  split; [done|]. split; [done|].
  split; [unfold getItem, setItem; by rewrite lookup_insert_eq|].
  assert (Hd : data_theme (updateThemeIcon (Str t) (setAttribute_data_theme (Str t) p))
               = Some (Str t)).
  { unfold updateThemeIcon, setAttribute_data_theme. cbn.
    by destruct (theme_icon p). }
  split; [done|]. split.
  { unfold updateThemeIcon, setAttribute_data_theme. cbn.
    by destruct (theme_icon p). }
  unfold toggleTheme at 1. rewrite Hd. cbn [snd blob_is].
  unfold updateThemeIcon, setAttribute_data_theme. cbn.
  by destruct (theme_icon p), Ht as [-> | ->].
Qed.

(** X12: a page that starts after a toggle shows what the toggle left:
    [initTheme] on the storage written by [toggleTheme] gives the same
    attribute and icon, for a page with an icon element when the old page
    had one. *)
Theorem initTheme_after_toggle (ls : localStorage) (p q : Page) :
  (theme_icon q = None ↔ theme_icon p = None) →
  let new := initTheme (toggleTheme ls p).1 q in
  data_theme new = data_theme (toggleTheme ls p).2 ∧
  theme_icon new = theme_icon (toggleTheme ls p).2.
Proof.
  intros Hicon. destruct (toggleTheme_new_theme ls p) as (t & Ht & _ & ->).
  cbn [fst snd]. unfold initTheme, getItem, setItem.
  rewrite lookup_insert_eq.
  assert (item_or (Some (Str t)) (Str "light") = Str t) as ->.
  { by destruct Ht as [-> | ->]. }
  unfold updateThemeIcon, setAttribute_data_theme. cbn.
  revert Hicon.
  destruct (theme_icon p) as [ip|], (theme_icon q) as [iq|]; try done.
  - intros Hicon. discriminate (proj1 Hicon eq_refl).
  - intros Hicon. discriminate (proj2 Hicon eq_refl).
Qed.

Lemma initTheme_after_toggle_witness :
  let p := {| data_theme := Some (Str "light"); theme_icon := Some "🌙" |} in
  let q := {| data_theme := None; theme_icon := Some "" |} in
  data_theme (initTheme (toggleTheme ∅ p).1 q) = Some (Str "dark") ∧
  theme_icon (initTheme (toggleTheme ∅ p).1 q) = Some "☀️".
Proof.
  intros p q.
  destruct (initTheme_after_toggle ∅ p q) as [Hd Hi].
  { split; discriminate. }
  split; [rewrite Hd|rewrite Hi]; reflexivity.
Defined.

(** X13: with no stored theme, or an empty one, [initTheme] sets light;
    otherwise it sets the stored string as it is, whether or not it is a
    theme name, and shows the moon for everything but dark. *)
Theorem initTheme_fallback (ls : localStorage) (p : Page) :
  (getItem "theme" ls = None ∨ getItem "theme" ls = Some (Str "") →
   data_theme (initTheme ls p) = Some (Str "light")) ∧
  (∀ s, s ≠ "" → getItem "theme" ls = Some (Str s) →
        data_theme (initTheme ls p) = Some (Str s)) ∧
  (∀ text, theme_icon (initTheme ls p) = Some text →
        text = "☀️" ↔ getItem "theme" ls = Some (Str "dark")).
Proof.
  unfold initTheme, updateThemeIcon, setAttribute_data_theme. cbn.
  split; [|split].
  - intros [-> | ->]; cbn; by destruct (theme_icon p).
  - intros s Hs ->. cbn.
    destruct (String.eqb_spec s "") as [->|_]; [done|].
    cbn. by destruct (theme_icon p).
  - intros text. destruct (theme_icon p); [|done]. intros [= <-].
    destruct (getItem "theme" ls) as [[name|h]|]; cbn; [|done..].
    destruct (String.eqb_spec name "") as [->|Hne]; cbn; [done|].
    destruct (String.eqb_spec name "dark") as [->|Hd]; [done|].
    split; [done|]. by intros [= ->].
Qed.

Lemma initTheme_fallback_witness :
  let p := {| data_theme := None; theme_icon := None |} in
  data_theme (initTheme ∅ p) = Some (Str "light") ∧
  data_theme (initTheme {[ "theme" := Str "blue" ]} p) = Some (Str "blue").
Proof.
  intros p. split.
  - destruct (initTheme_fallback ∅ p) as (H & _). apply H. left. reflexivity.
  - destruct (initTheme_fallback {[ "theme" := Str "blue" ]} p) as (_ & H & _).
    apply H; [discriminate|reflexivity].
Defined.

(** ** Exact cases of the arithmetic *)

(** [x] is zero or a finite non-zero value. *)
Lemma is_finite_Prim2SF (x : float) :
  is_finite x = match Prim2SF x with
                | S754_zero _ | S754_finite _ _ _ => true
                | _ => false
                end.
Proof.
  unfold is_finite, is_infinity.
  change (is_nan x) with (JS.isNaN x).
  rewrite isNaN_Prim2SF, FloatAxioms.eqb_spec, FloatAxioms.abs_spec.
  change (Prim2SF infinity) with (S754_infinity false).
  by destruct (Prim2SF x) as [s|s| |s m e].
Qed.

Lemma sub_diag_finite (x : float) : is_finite x = true → (x - x)%float = 0%float.
Proof.
  rewrite is_finite_Prim2SF. intros Hx. apply Prim2SF_inj.
  rewrite FloatAxioms.sub_spec. change (Prim2SF 0) with (S754_zero false).
  destruct (Prim2SF x) as [[]|s| |s m e]; try done.
  unfold SF64sub, SFsub.
  pose proof (Z.sub_diag (cond_Zopp s (Z.pos (shl_align m e (Z.min e e)).1))) as Hd.
  unfold SF64sub, SFsub. 
  change (IntDef.Z.sub ?a ?b) with (Z.sub a b).
  change (IntDef.Z.min ?a ?b) with (Z.min a b).
  rewrite Hd. reflexivity.
Qed.

Lemma binary_round_aux_signed s m e l :
  (0 <= m)%Z → signed_SF s (binary_round_aux prec emax s m e l).
Proof.
  intros Hm. unfold binary_round_aux.
  pose proof (shr_fexp_nonneg m e l Hm) as H1.
  destruct (shr_fexp prec emax m e l) as [mrs' e'] eqn:E1. simpl in H1.
  pose proof (shr_fexp_nonneg _ e' loc_Exact
                (round_nearest_even_nonneg _ (loc_of_shr_record mrs') H1)) as H2.
  destruct (shr_fexp prec emax _ e' loc_Exact) as [mrs'' e''] eqn:E2. simpl in H2.
  destruct (shr_m mrs'') as [|q|q]; [constructor| |lia].
  destruct (e'' <=? emax - prec)%Z; constructor.
Qed.

Lemma SFdiv_core_binary_nonneg m1 e1 m2 e2 :
  (0 <= (SFdiv_core_binary prec emax (Z.pos m1) e1 (Z.pos m2) e2).1.1)%Z.
Proof.
  unfold SFdiv_core_binary.
  set (sh := (_ - _ - _)%Z).
  set (m' := match sh with Z0 => _ | Zpos _ => _ | Zneg _ => _ end).
  assert (Hm' : (0 <= m')%Z).
  { subst m'. destruct sh; [lia| |lia]. by apply Z.shiftl_nonneg. }
  pose proof (Z.div_pos m' (Z.pos m2) Hm' ltac:(lia)) as Hq.
  unfold Z.div in Hq.
  destruct (Z.div_eucl m' (Z.pos m2)) as [q r]. exact Hq.
Qed.

Lemma SF64div_finite_signed s1 m1 e1 s2 m2 e2 :
  signed_SF (xorb s1 s2) (SF64div (S754_finite s1 m1 e1) (S754_finite s2 m2 e2)).
Proof.
  unfold SF64div, SFdiv.
  pose proof (SFdiv_core_binary_nonneg m1 e1 m2 e2) as Hq.
  destruct (SFdiv_core_binary prec emax (Z.pos m1) e1 (Z.pos m2) e2) as [[mz ez] lz].
  by apply binary_round_aux_signed.
Qed.

Lemma is_infinity_Prim2SF (x : float) :
  is_infinity x = match Prim2SF x with S754_infinity _ => true | _ => false end.
Proof.
  unfold is_infinity. rewrite FloatAxioms.eqb_spec, FloatAxioms.abs_spec.
  change (Prim2SF infinity) with (S754_infinity false).
  by destruct (Prim2SF x) as [s|s| |s m e].
Qed.

(** X14: at power factor 1 the real power is the apparent power, with no
    rounding, and at efficiency 100 the adjusted power is the real power;
    at power factor 1 the reactive power is 0 whenever the square of the
    apparent power is finite. *)
Theorem unity_power_factor (V I p PF e r : float) :
  kw (calculatePower V I p 1 e r) = kva (calculatePower V I p 1 e r) ∧
  adjustedPower (calculatePower V I p PF 100 r)
  = kw (calculatePower V I p PF 100 r) ∧
  (is_finite (JS.Math_pow2 (kva (calculatePower V I p 1 e r))) = true →
   kvar (calculatePower V I p 1 e r) = 0%float).
Proof.
  rewrite !calculatePower_unfold.
  cbn [Algorithm.calculate kw kva kvar adjustedPower].
  unfold Algorithm.realPower, Algorithm.adjusted, Algorithm.reactivePower.
  rewrite mul_1_r. change (100 / 100)%float with 1%float. rewrite mul_1_r.
  split; [done|]. split; [done|].
  intros Hfin. by rewrite sub_diag_finite.
Qed.

Lemma unity_power_factor_witness :
  kvar (calculatePower 230 16 1 1 95 0.3) = 0%float.
Proof.
  apply (unity_power_factor 230 16 1 1 95 0.3). reflexivity.
Defined.

(** X15: with the power factor 1, which is the default of the optional
    argument, the single-phase power is the apparent power and the
    three-phase power is the square root of 3 times voltage times
    current; the single-phase apparent power of the calculator is the
    apparent power in watts converted to kilowatts. *)
Theorem default_power_factor_utilities (V I PF e r : float) :
  Electrical.calculateSinglePhasePower V I 1
  = Electrical.calculateApparentPower V I ∧
  Electrical.calculateSinglePhasePower V I 1 = Electrical.calculatePower V I ∧
  Electrical.calculateThreePhasePower V I 1 = (JS.Math_sqrt 3 * V * I)%float ∧
  kva (calculatePower V I 1 PF e r)
  = Electrical.wattsToKilowatts (Electrical.calculateApparentPower V I) ∧
  kw (calculatePower V I 1 1 e r)
  = Electrical.wattsToKilowatts (Electrical.calculateSinglePhasePower V I 1).
Proof.
  unfold Electrical.calculateSinglePhasePower, Electrical.calculateThreePhasePower,
    Electrical.calculateApparentPower, Electrical.calculatePower,
    Electrical.wattsToKilowatts.
  rewrite !mul_1_r. repeat split.
  rewrite calculatePower_unfold. cbn [Algorithm.calculate kw].
  unfold Algorithm.realPower. by rewrite mul_1_r.
Qed.

(** X16: [calculatePowerFactor] returns 0 when the apparent power is a
    zero of either sign, whatever the real power; otherwise it returns
    the quotient, which is NaN only when an argument is NaN or both are
    infinite. *)
Theorem calculatePowerFactor_guard (realPower apparentPower : float) :
  let q := Electrical.calculatePowerFactor realPower apparentPower in
  ((apparentPower =? 0)%float = true → q = 0%float) ∧
  ((apparentPower =? 0)%float = false →
   q = (realPower / apparentPower)%float ∧
   JS.isNaN q
   = JS.isNaN realPower || JS.isNaN apparentPower
     || (is_infinity realPower && is_infinity apparentPower)).
Proof.
  intros q. subst q. unfold Electrical.calculatePowerFactor, JS.strict_eq.
  split; [by intros ->|]. intros Hz. rewrite Hz. split; [done|].
  rewrite FloatAxioms.eqb_spec in Hz. revert Hz.
  rewrite !isNaN_Prim2SF, !is_infinity_Prim2SF, FloatAxioms.div_spec.
  change (Prim2SF 0) with (S754_zero false).
  destruct (Prim2SF realPower) as [s1|s1| |s1 m1 e1],
    (Prim2SF apparentPower) as [s2|s2| |s2 m2 e2]; try done.
  intros _. by destruct (SF64div_finite_signed s1 m1 e1 s2 m2 e2).
Qed.

Lemma calculatePowerFactor_guard_witness :
  Electrical.calculatePowerFactor nan (-0) = 0%float ∧
  JS.isNaN (Electrical.calculatePowerFactor 5 infinity) = false.
Proof.
  split.
  - apply (calculatePowerFactor_guard nan (-0)). reflexivity.
  - destruct (calculatePowerFactor_guard 5 infinity) as [_ H].
    destruct H as [_ ->]; reflexivity.
Defined.

(** ** The first version of the page *)

Lemma legacy_errors_length (voltage current efficiency : float) :
  length (errors (Legacy.validateInputs voltage current efficiency))
  = (if Violation.voltage voltage then 1 else 0)
    + (if Violation.current current then 1 else 0)
    + (if Violation.efficiency efficiency then 1 else 0).
Proof.
  unfold Legacy.validateInputs, Violation.voltage, Violation.current,
    Violation.efficiency, push.
  cbn -[JS.gt JS.isNaN String.append].
  destruct (JS.isNaN voltage), (voltage <=? 0)%float, (JS.gt voltage 1000000),
    (JS.isNaN current), (current <=? 0)%float, (JS.gt current 100000),
    (JS.isNaN efficiency), (efficiency <? 0)%float, (JS.gt efficiency 100);
    reflexivity.
Qed.

Lemma errors_length (voltage current powerFactor efficiency rate : float) :
  length (errors (validateInputs voltage current powerFactor efficiency rate))
  = (if Violation.voltage voltage then 1 else 0)
    + (if Violation.current current then 1 else 0)
    + (if Violation.powerFactor powerFactor then 1 else 0)
    + (if Violation.efficiency efficiency then 1 else 0).
Proof.
  rewrite validateInputs_errors, !length_app.
  unfold Violation.voltage, Violation.current.
  destruct (JS.isNaN voltage), (voltage <=? 0)%float, (JS.gt voltage 1000000),
    (JS.isNaN current), (current <=? 0)%float, (JS.gt current 100000),
    (Violation.powerFactor powerFactor), (Violation.efficiency efficiency);
    reflexivity.
Qed.

(** X17: the first validator and the current one count the same errors
    for voltage, current and efficiency; the current one adds one for a
    power factor out of range, so it accepts exactly what the first one
    accepts when the power factor is in range. *)
Theorem legacy_validation_agrees (voltage current powerFactor efficiency rate : float) :
  let old := Legacy.validateInputs voltage current efficiency in
  let new := validateInputs voltage current powerFactor efficiency rate in
  length (errors new)
  = length (errors old) + (if Violation.powerFactor powerFactor then 1 else 0) ∧
  isValid new = isValid old && negb (Violation.powerFactor powerFactor).
Proof.
  intros old new.
  assert (Hlen : length (errors new)
                 = length (errors old)
                   + (if Violation.powerFactor powerFactor then 1 else 0)).
  { subst old new. rewrite errors_length, legacy_errors_length. lia. }
  split; [done|].
  change (isValid new) with (Nat.eqb (length (errors new)) 0).
  change (isValid old) with (Nat.eqb (length (errors old)) 0).
  rewrite Hlen.
  destruct (Violation.powerFactor powerFactor), (length (errors old)); done.
Qed.

(** X18: when the first version shows figures, they are those of the
    current calculator at power factor 1 on the same voltage, current,
    phase and efficiency, whatever the rate, except that the power factor
    shown is the constant 0.9; the real power shown equals the apparent
    power.  When it shows errors, there is at least one. *)
Theorem legacy_figures (voltageInput currentInput phaseSelect efficiencyInput rate : float) :
  let efficiency := JS.or_default efficiencyInput 100 in
  match Legacy.updateCalculations voltageInput currentInput phaseSelect
          efficiencyInput with
  | Legacy.displayErrors es =>
      es = errors (Legacy.validateInputs voltageInput currentInput efficiency) ∧
      es ≠ []
  | Legacy.displayFigures fig =>
      let r := calculatePower voltageInput currentInput phaseSelect 1
                 efficiency rate in
      isValid (Legacy.validateInputs voltageInput currentInput efficiency) = true ∧
      Legacy.kw fig = Legacy.kva fig ∧
      Legacy.kva fig = kva r ∧ Legacy.kw fig = kw r ∧
      Legacy.kvar fig = kvar r ∧
      Legacy.adjustedPower fig = adjustedPower r ∧
      Legacy.phase fig = phase r ∧
      Legacy.pf fig = 0.9%float
  end.
Proof.
  intros efficiency. unfold Legacy.updateCalculations. fold efficiency.
  destruct (isValid _) eqn:Hv; cbn [negb].
  - rewrite calculatePower_unfold.
    cbn [Algorithm.calculate kw kva kvar adjustedPower phase].
    unfold Algorithm.apparentPower, Algorithm.realPower, Algorithm.adjusted,
      Algorithm.reactivePower.
    rewrite !mul_1_r.
    by destruct (JS.strict_eq phaseSelect 1).
  - split; [done|]. intros Hnil.
    change (isValid (Legacy.validateInputs voltageInput currentInput efficiency))
      with (Nat.eqb
              (length (errors (Legacy.validateInputs voltageInput currentInput
                                 efficiency))) 0) in Hv.
    by rewrite Hnil in Hv.
Qed.

(** ** Entries saved at the same clock reading *)

(** X19: two calculations saved at the same clock reading get the same
    id, and one [deleteHistoryItem] with that id removes both; what is
    listed afterwards is the first 8 of the entries listed before. *)
Theorem same_reading_deleted_together (f g : Input.ParsedFields)
    (t_id t_ts u_ts : Z) (ls : localStorage) (h : list HistoryItem) :
  getHistory ls = Some h → length h ≤ 10 →
  validates f = true → validates g = true →
  Forall (λ item, History.id item ≠ pretty t_id) h →
  ∃ ls',
    (saveCalculation f t_id t_ts ls ≫= saveCalculation g t_id u_ts)
      ≫= deleteHistoryItem (pretty t_id) = Some ls' ∧
    getHistory ls' = Some (take 8 h).
Proof.
  intros Hh Hlen Hf Hg Hids.
  rewrite (saveCalculation_valid f _ _ ls h) by done. cbn [mbind option_bind].
  rewrite (saveCalculation_valid g _ _ _ _ Hg (getHistory_setItem _ _)).
  cbn [mbind option_bind].
  rewrite (deleteHistoryItem_filter _ _ _ (getHistory_setItem _ _)).
  eexists. split; [done|]. rewrite getHistory_setItem. f_equal.
  cbn [take].
  rewrite !filter_cons_False by (cbn [History.id saved_item]; naive_solver).
  rewrite filter_Forall_id by by do 2 apply Forall_take.
  by rewrite take_take.
Qed.

Lemma same_reading_deleted_together_witness :
  let ls : localStorage :=
    {[ "calculationHistory" := JSON_stringify [item_of (sample_request 1)] ]} in
  ∃ ls',
    (saveCalculation sample_fields 5 5 ls ≫= saveCalculation sample_fields 5 6)
      ≫= deleteHistoryItem "5" = Some ls' ∧
    getHistory ls' = Some [item_of (sample_request 1)].
Proof.
  intros ls.
  apply (same_reading_deleted_together sample_fields sample_fields 5 5 6 ls
           [item_of (sample_request 1)]).
  - reflexivity.
  - simpl. lia.
  - reflexivity.
  - reflexivity.
  - repeat constructor. discriminate.
Defined.

(** ** Magnitudes: the figures of validated inputs are finite *)

Section Magnitude.
Local Open Scope Z_scope.

Lemma digits2_pos_size p : digits2_pos p = Pos.size p.
Proof. induction p; simpl; by rewrite ?IHp. Qed.

Lemma Zdigits2_log2 m : 0 < m → Zdigits2 m = Z.log2 m + 1.
Proof.
  destruct m as [|p|p]; [lia| |lia]. intros _. simpl.
  rewrite digits2_pos_size. destruct p; simpl; lia.
Qed.

Lemma Zdigits2_nonneg m : 0 <= Zdigits2 m.
Proof. destruct m; simpl; lia. Qed.

Lemma Zdigits2_mono a b : 0 <= a <= b → Zdigits2 a <= Zdigits2 b.
Proof.
  intros [Ha Hab]. destruct (Z.eq_dec a 0) as [->|Hne].
  - apply Zdigits2_nonneg.
  - rewrite !Zdigits2_log2 by lia. pose proof (Z.log2_le_mono a b Hab). lia.
Qed.

Lemma Zdigits2_succ m : 0 <= m → Zdigits2 (m + 1) <= Zdigits2 m + 1.
Proof.
  intros Hm. destruct (Z.eq_dec m 0) as [->|Hne]; [simpl; lia|].
  rewrite !Zdigits2_log2 by lia.
  pose proof (Z.log2_le_mono (m + 1) (2 * m) ltac:(lia)).
  rewrite Z.log2_double in * by lia. lia.
Qed.

Lemma Zdigits2_mul a b :
  Zdigits2 (Z.pos (a * b)) <= Zdigits2 (Z.pos a) + Zdigits2 (Z.pos b).
Proof.
  rewrite !Zdigits2_log2 by lia.
  pose proof (Z.log2_mul_above (Z.pos a) (Z.pos b) ltac:(lia) ltac:(lia)).
  rewrite Pos2Z.inj_mul. lia.
Qed.

Lemma Zdigits2_shiftl m n : 0 < m → 0 <= n → Zdigits2 (Z.shiftl m n) = Zdigits2 m + n.
Proof.
  intros Hm Hn.
  assert (0 < Z.shiftl m n).
  { rewrite Z.shiftl_mul_pow2 by lia.
    apply Z.mul_pos_pos; [lia|]. by apply Z.pow_pos_nonneg. }
  rewrite !Zdigits2_log2, Z.log2_shiftl by lia. lia.
Qed.

Lemma shr_1_digits r :
  0 <= shr_m r →
  Zdigits2 (shr_m (shr_1 r)) = Z.max 0 (Zdigits2 (shr_m r) - 1).
Proof.
  destruct r as [[|[q|q|]|q] b c]; simpl; lia.
Qed.

Lemma shr_1_nonneg r : 0 <= shr_m r → 0 <= shr_m (shr_1 r).
Proof. destruct r as [[|[q|q|]|q] b c]; simpl; lia. Qed.

Lemma iter_shr_1_digits p r :
  0 <= shr_m r →
  Zdigits2 (shr_m (SpecFloat.iter_pos shr_1 p r))
  = Z.max 0 (Zdigits2 (shr_m r) - Z.pos p).
Proof.
  revert r. induction p as [p IH|p IH|]; intros r Hr; simpl.
  - rewrite IH by (apply iter_pos_shr_1_nonneg; by apply shr_1_nonneg).
    rewrite IH by by apply shr_1_nonneg.
    rewrite shr_1_digits by done. lia.
  - rewrite IH by by apply iter_pos_shr_1_nonneg. rewrite IH by done. lia.
  - by apply shr_1_digits.
Qed.

Lemma fexp64 x : fexp prec emax x = Z.max (x - 53) (-1074).
Proof. reflexivity. Qed.

Lemma shr_fexp_bound m e l :
  0 <= m →
  let r := shr_fexp prec emax m e l in
  0 <= shr_m r.1 ∧
  Zdigits2 (shr_m r.1) + r.2 <= Z.max (Zdigits2 m + e) (-1074) ∧
  r.2 <= Z.max (Zdigits2 m + e) (-1074).
Proof.
  intros Hm r. split; [by apply shr_fexp_nonneg|].
  subst r. unfold shr_fexp, shr. rewrite fexp64.
  pose proof (Zdigits2_nonneg m) as Hd.
  assert (Hrec : shr_m (shr_record_of_loc m l) = m) by by destruct l as [|[]].
  destruct (Z.max (Zdigits2 m + e - 53) (-1074) - e) as [|n|n] eqn:Hn;
    cbn [fst snd]; rewrite ?Hrec; try lia.
  rewrite iter_shr_1_digits, Hrec by (rewrite Hrec; lia). lia.
Qed.

Lemma binary_round_aux_mag s m e l N :
  0 <= m → Zdigits2 m + e <= N → -1074 <= N <= 970 →
  mag_le (N + 1) (binary_round_aux prec emax s m e l).
Proof.
  intros Hm Hs HN. unfold binary_round_aux.
  pose proof (shr_fexp_bound m e l Hm) as (H1 & H2 & H3).
  destruct (shr_fexp prec emax m e l) as [mrs' e'] eqn:E1. cbn [fst snd] in *.
  set (mr := round_nearest_even (shr_m mrs') (loc_of_shr_record mrs')).
  assert (Hmr : 0 <= mr ∧ Zdigits2 mr <= Zdigits2 (shr_m mrs') + 1).
  { subst mr. split; [by apply round_nearest_even_nonneg|].
    pose proof (Zdigits2_succ (shr_m mrs') H1).
    destruct (loc_of_shr_record mrs') as [|[]]; simpl; try lia.
    destruct (Z.even (shr_m mrs')); lia. }
  destruct Hmr as [Hmr0 Hmr1].
  pose proof (shr_fexp_bound mr e' loc_Exact Hmr0) as (H4 & H5 & H6).
  destruct (shr_fexp prec emax mr e' loc_Exact) as [mrs'' e''] eqn:E2.
  cbn [fst snd] in *.
  destruct (shr_m mrs'') as [|q|q] eqn:Hq; [done| |lia].
  assert (He : (e'' <=? emax - prec) = true) by (apply Z.leb_le; unfold emax, prec; lia).
  rewrite He. simpl in *. lia.
Qed.


Lemma mag_le_mono N N' x : mag_le N x → N <= N' → mag_le N' x.
Proof. destruct x; simpl; try done. lia. Qed.

Lemma SF64mul_mag x y N M :
  mag_le N x → mag_le M y → -1074 <= N + M <= 970 →
  mag_le (N + M + 1) (SF64mul x y).
Proof.
  destruct x as [s1|s1| |s1 m1 e1], y as [s2|s2| |s2 m2 e2]; try done.
  simpl. intros Hx Hy HN. apply binary_round_aux_mag; [lia| |done].
  pose proof (Zdigits2_mul m1 m2). simpl in *.
  change (PosDef.Pos.mul m1 m2) with (m1 * m2)%positive. lia.
Qed.

Lemma SFdiv_core_binary_bound m1 e1 m2 e2 :
  let r := SFdiv_core_binary prec emax (Z.pos m1) e1 (Z.pos m2) e2 in
  0 <= r.1.1 ∧ Zdigits2 r.1.1 + r.1.2 <= Z.pos (digits2_pos m1) + e1 - e2.
Proof.
  intros r. split; [apply SFdiv_core_binary_nonneg|].
  subst r. unfold SFdiv_core_binary.
  set (e' := Z.min _ (e1 - e2)).
  set (sh := (e1 - e2 - e')%Z).
  assert (Hsh : 0 <= sh) by (subst sh e'; lia).
  set (m' := match sh with Z0 => _ | Zpos _ => _ | Zneg _ => _ end).
  assert (Hm' : 0 < m' ∧ Zdigits2 m' = Z.pos (digits2_pos m1) + sh).
  { subst m'. destruct sh as [|n|n] eqn:Hn; [simpl; lia| |lia].
    rewrite Zdigits2_shiftl by lia. split; [|done].
    rewrite Z.shiftl_mul_pow2 by lia.
    apply Z.mul_pos_pos; [lia|]. by apply Z.pow_pos_nonneg. }
  destruct Hm' as [Hm0 Hmd].
  pose proof (Z.div_pos m' (Z.pos m2) ltac:(lia) ltac:(lia)) as Hq0.
  pose proof (Z.div_le_upper_bound m' (Z.pos m2) m' ltac:(lia) ltac:(nia)) as Hq1.
  unfold Z.div in Hq0, Hq1.
  destruct (Z.div_eucl m' (Z.pos m2)) as [q r]. cbn [fst snd].
  pose proof (Zdigits2_mono q m' ltac:(lia)). subst sh. lia.
Qed.

Lemma SF64div_mag x s2 m2 e2 N :
  mag_le N x → -1074 <= N - e2 <= 970 →
  mag_le (N - e2 + 1) (SF64div x (S754_finite s2 m2 e2)).
Proof.
  destruct x as [s1|s1| |s1 m1 e1]; try done.
  simpl. intros Hx HN. unfold SF64div, SFdiv.
  pose proof (SFdiv_core_binary_bound m1 e1 m2 e2) as [Hq Hb].
  destruct (SFdiv_core_binary prec emax (Z.pos m1) e1 (Z.pos m2) e2) as [[mz ez] lz].
  cbn [fst snd] in *. apply binary_round_aux_mag; [done|lia|done].
Qed.


Lemma digits2_pos_iter_xO m d :
  Z.pos (digits2_pos (Pos.iter xO m d)) = Z.pos (digits2_pos m) + Z.pos d.
Proof.
  induction d as [|d IH] using Pos.peano_ind.
  - simpl. lia.
  - rewrite Pos.iter_succ. simpl digits2_pos. lia.
Qed.

Lemma shl_align_sum m e t :
  let r := shl_align m e t in
  Z.pos (digits2_pos r.1) + r.2 = Z.pos (digits2_pos m) + e.
Proof.
  unfold shl_align. destruct (t - e) as [|d|d] eqn:Hd; cbn [fst snd]; try done.
  rewrite digits2_pos_iter_xO. lia.
Qed.

Lemma shl_align_fst_sum m e t :
  t <= e → Z.pos (digits2_pos (shl_align m e t).1) + t = Z.pos (digits2_pos m) + e.
Proof.
  intros Ht. unfold shl_align.
  destruct (t - e) as [|d|d] eqn:Hd; cbn [fst snd]; [lia|lia|].
  rewrite digits2_pos_iter_xO. lia.
Qed.

Lemma binary_normalize_mag m e N :
  Zdigits2 m + e <= N → -1074 <= N <= 970 →
  mag_le (N + 1) (binary_normalize prec emax m e false).
Proof.
  intros Hm HN. destruct m as [|p|p]; simpl; [done|..].
  all: unfold binary_round;
    pose proof (shl_align_sum p e (fexp prec emax (Z.pos (digits2_pos p) + e))) as Hs;
    destruct (shl_align p e _) as [mz ez]; cbn [fst snd] in Hs;
    apply binary_round_aux_mag; [lia|simpl in *; lia|done].
Qed.

Lemma Zdigits2_sub_bound (a b : Z) D :
  Zdigits2 a <= D → Zdigits2 b <= D → Zdigits2 (a - b) <= D + 1.
Proof.
  intros Ha Hb.
  assert (Habs : ∀ x, Zdigits2 x = Zdigits2 (Z.abs x)).
  { intros []; done. }
  rewrite Habs in Ha, Hb. rewrite (Habs (a - b)).
  set (c := Z.max (Z.abs a) (Z.abs b)).
  assert (Hc : Zdigits2 c <= D) by (subst c; destruct (Z.max_spec (Z.abs a) (Z.abs b)) as [[_ ->]|[_ ->]]; done).
  pose proof (Zdigits2_mono (Z.abs (a - b)) (2 * c) ltac:(lia)) as Hm.
  destruct (Z.eq_dec c 0) as [Hc0|Hc0].
  - rewrite Hc0 in Hm. simpl in Hm. pose proof (Zdigits2_nonneg a). 
    pose proof (Zdigits2_nonneg (Z.abs a)). lia.
  - rewrite (Zdigits2_log2 (2 * c)), Z.log2_double in Hm by lia.
    rewrite (Zdigits2_log2 c) in Hc by lia. lia.
Qed.

Lemma SF64sub_mag x y N :
  mag_le N x → mag_le N y → -1074 <= N + 1 <= 970 →
  mag_le (N + 2) (SF64sub x y).
Proof.
  destruct x as [s1|s1| |s1 m1 e1], y as [s2|s2| |s2 m2 e2]; try done.
  - intros _ _ _. by destruct s1, s2.
  - simpl. lia.
  - simpl. lia.
  - simpl. intros Hx Hy HN.
    replace (N + 2) with (N + 1 + 1) by lia.
    apply binary_normalize_mag; [|done].
    set (ez := Z.min e1 e2).
    pose proof (shl_align_fst_sum m1 e1 ez ltac:(lia)) as H1.
    pose proof (shl_align_fst_sum m2 e2 ez ltac:(lia)) as H2.
    set (a := cond_Zopp s1 _). set (b := cond_Zopp s2 _).
    assert (Ha : Zdigits2 a <= N - ez).
    { subst a. destruct s1; simpl; lia. }
    assert (Hb : Zdigits2 b <= N - ez).
    { subst b. destruct s2; simpl; lia. }
    pose proof (Zdigits2_sub_bound a b _ Ha Hb). lia.
Qed.


Lemma SFsqrt_core_binary_bound m e N :
  Z.pos (digits2_pos m) + e <= N →
  let r := SFsqrt_core_binary prec emax (Z.pos m) e in
  0 <= r.1.1 ∧ 2 * (Zdigits2 r.1.1 + r.1.2) <= N + 1.
Proof.
  intros HN r. split; [apply SFsqrt_core_binary_nonneg|].
  subst r. unfold SFsqrt_core_binary.
  set (e' := Z.min _ (Z.div2 e)).
  assert (He' : 2 * e' <= e).
  { subst e'. rewrite Z.div2_div. pose proof (Z.mul_div_le e 2 ltac:(lia)). lia. }
  set (sh := (e - 2 * e')%Z).
  assert (Hsh : 0 <= sh) by (subst sh; lia).
  set (m' := match sh with Z0 => _ | Zpos _ => _ | Zneg _ => _ end).
  assert (Hm' : 0 < m' ∧ Zdigits2 m' = Z.pos (digits2_pos m) + sh).
  { subst m'. destruct sh as [|n|n] eqn:Hn; [simpl; lia| |lia].
    rewrite Zdigits2_shiftl by lia. split; [|done].
    rewrite Z.shiftl_mul_pow2 by lia.
    apply Z.mul_pos_pos; [lia|]. by apply Z.pow_pos_nonneg. }
  destruct Hm' as [Hm0 Hmd].
  pose proof (Z.sqrtrem_sqrt m') as Hq.
  pose proof (Z.sqrt_spec m' ltac:(lia)) as [Hlo _].
  pose proof (proj2 (Z.sqrt_pos m') Hm0) as Hpos.
  destruct (Z.sqrtrem m') as [q r]. cbn [fst snd] in *. subst q.
  set (q := Z.sqrt m') in *.
  pose proof (Z.log2_mul_below q q Hpos Hpos) as Hl.
  pose proof (Z.log2_le_mono (q * q) m' Hlo) as Hl2.
  rewrite (Zdigits2_log2 q) by done.
  rewrite (Zdigits2_log2 m') in Hmd by done. subst sh. lia.
Qed.

Lemma SF64sqrt_mag x N :
  nonneg_SF x → mag_le N x → N <= 970 → mag_le 971 (SF64sqrt x).
Proof.
  intros [| |m e]; try done. simpl. intros Hx HN.
  unfold SF64sqrt, SFsqrt.
  pose proof (SFsqrt_core_binary_bound m e N Hx) as [Hq Hb].
  destruct (SFsqrt_core_binary prec emax (Z.pos m) e) as [[mz ez] lz].
  cbn [fst snd] in *.
  apply (binary_round_aux_mag false mz ez lz 970); [done|lia|lia].
Qed.

(** A value above 0 and at most a finite [k] is finite, with the exponent
    of [k] at most. *)
Lemma leb_const_mag (x k : float) mK eK :
  Prim2SF k = S754_finite false mK eK →
  (0 <? x)%float = true → (x <=? k)%float = true →
  nonneg_SF (Prim2SF x) ∧ mag_le (53 + eK) (Prim2SF x).
Proof.
  intros Hk. rewrite FloatAxioms.ltb_spec, FloatAxioms.leb_spec, Hk.
  change (Prim2SF 0%float) with (S754_zero false).
  pose proof (Prim2SF_valid x) as Hv.
  destruct (Prim2SF x) as [s|[]| |[] m e]; try done.
  intros _ Hle. split; [constructor|]. simpl.
  unfold SFleb in Hle. cbn [SFcompare] in Hle.
  assert (He : e <= eK).
  { destruct (IntDef.Z.compare e eK) eqn:Hcmp; [| |done].
    - apply Z.compare_eq in Hcmp. lia.
    - pose proof (proj1 (Z.compare_lt_iff e eK) Hcmp). lia. }
  simpl in Hv. unfold bounded, canonical_mantissa in Hv.
  apply andb_prop in Hv as [Hc _]. apply Z.eqb_eq in Hc.
  rewrite fexp64 in Hc. lia.
Qed.

Lemma mag_le_is_finite (x : float) N : mag_le N (Prim2SF x) → is_finite x = true.
Proof. rewrite is_finite_Prim2SF. by destruct (Prim2SF x). Qed.


End Magnitude.

Section FloatMagnitude.
Local Open Scope Z_scope.

Lemma fmag_mono N N' x : fmag N x → N <= N' → fmag N' x.
Proof. apply mag_le_mono. Qed.

Lemma fmag_mul N M (x y : float) :
  fmag N x → fmag M y → -1074 <= N + M <= 970 → fmag (N + M + 1) (x * y)%float.
Proof. unfold fmag. rewrite FloatAxioms.mul_spec. apply SF64mul_mag. Qed.

Lemma fmag_div N (x k : float) s m e :
  Prim2SF k = S754_finite s m e →
  fmag N x → -1074 <= N - e <= 970 → fmag (N - e + 1) (x / k)%float.
Proof.
  unfold fmag. rewrite FloatAxioms.div_spec. intros ->. apply SF64div_mag.
Qed.

Lemma fmag_sub N (x y : float) :
  fmag N x → fmag N y → -1074 <= N + 1 <= 970 → fmag (N + 2) (x - y)%float.
Proof. unfold fmag. rewrite FloatAxioms.sub_spec. apply SF64sub_mag. Qed.

Lemma fmag_range (x k : float) mK eK :
  Prim2SF k = S754_finite false mK eK →
  above_upto 0 k x → fmag (53 + eK) x.
Proof. intros Hk [H0 H1]. by apply (leb_const_mag x k mK eK). Qed.

Lemma fmag_not_nan N x : fmag N x → JS.isNaN x = false.
Proof. unfold fmag. rewrite isNaN_Prim2SF. by destruct (Prim2SF x). Qed.

Lemma Math_max_0_choice (d : float) :
  JS.isNaN d = false → JS.Math_max 0 d = 0%float ∨ JS.Math_max 0 d = d.
Proof.
  intros Hd. unfold JS.Math_max. rewrite Hd.
  change (JS.isNaN 0) with false. change (get_sign 0) with false. cbn [orb].
  destruct (0 <? d)%float, (d <? 0)%float; auto.
Qed.

Lemma fmag_clamped_sqrt N (d : float) :
  fmag N d → N <= 970 →
  fmag 971 (JS.Math_sqrt (JS.Math_max 0 d)) ∧
  (0 <=? JS.Math_sqrt (JS.Math_max 0 d))%float = true.
Proof.
  intros Hd HN. pose proof (fmag_not_nan _ _ Hd) as Hn.
  split; [|by apply clamped_sqrt_facts].
  destruct (Math_max_0_cases d) as [[Hc _]|[_ Hnn]]; [congruence|].
  unfold fmag, JS.Math_sqrt. rewrite FloatAxioms.sqrt_spec.
  apply (SF64sqrt_mag _ (Z.max N 0)); [done| |lia].
  destruct (Math_max_0_choice d Hn) as [-> | ->].
  - done.
  - apply (mag_le_mono N); [done|lia].
Qed.

Lemma above_of_between (lo hi x : float) m e :
  Prim2SF lo = S754_finite false m e →
  between lo hi x → above_upto 0 hi x.
Proof.
  intros Hlo [H0 H1]. split; [|done]. revert H0.
  rewrite FloatAxioms.leb_spec, FloatAxioms.ltb_spec, Hlo.
  change (Prim2SF 0%float) with (S754_zero false).
  by destruct (Prim2SF x) as [s|[]| |[] m' e'].
Qed.

End FloatMagnitude.

Lemma Prim2SF_1000000 :
  Prim2SF 1000000 = S754_finite false 8589934592000000 (-33).
Proof. reflexivity. Qed.

Lemma Prim2SF_100000 :
  Prim2SF 100000 = S754_finite false 6871947673600000 (-36).
Proof. reflexivity. Qed.

Lemma Prim2SF_1000 : Prim2SF 1000 = S754_finite false 8796093022208000 (-43).
Proof. reflexivity. Qed.

Lemma Prim2SF_100 : Prim2SF 100 = S754_finite false 7036874417766400 (-46).
Proof. reflexivity. Qed.

Lemma Prim2SF_1 : Prim2SF 1 = S754_finite false 4503599627370496 (-52).
Proof. reflexivity. Qed.

Lemma Prim2SF_half : Prim2SF 0.5 = S754_finite false 4503599627370496 (-53).
Proof. reflexivity. Qed.

Lemma fmag_sqrt3 : fmag 1 (JS.Math_sqrt 3).
Proof. vm_compute. discriminate. Qed.


Lemma fmag_24 : fmag 5 24.
Proof. vm_compute. discriminate. Qed.

Lemma fmag_30 : fmag 5 30.
Proof. vm_compute. discriminate. Qed.

Lemma fmag_365 : fmag 9 365.
Proof. vm_compute. discriminate. Qed.

Lemma Prim2SF_10 : Prim2SF 10 = S754_finite false 5629499534213120 (-49).
Proof. reflexivity. Qed.

(** The figures of inputs within the validation ranges, with their
    magnitudes. *)
Lemma figures_in_range (V I p PF E r : float) :
  above_upto 0 1000000 V → above_upto 0 100000 I →
  between 0.5 1 PF → above_upto 0 100 E →
  let res := calculatePower V I p PF E r in
  fmag 84 (kva res) ∧ fmag 86 (kw res) ∧ fmag 141 (adjustedPower res) ∧
  fmag 971 (kvar res) ∧ (0 <=? kvar res)%float = true.
Proof.
  intros HV HI HP HE res.
  apply (above_of_between _ _ _ _ _ Prim2SF_half) in HP.
  apply (fmag_range _ _ _ _ Prim2SF_1000000) in HV.
  apply (fmag_range _ _ _ _ Prim2SF_100000) in HI.
  apply (fmag_range _ _ _ _ Prim2SF_1) in HP.
  apply (fmag_range _ _ _ _ Prim2SF_100) in HE.
  pose proof fmag_sqrt3 as H3.
  assert (Hkva : fmag 84 (kva res)).
  { subst res. rewrite calculatePower_unfold. cbn [Algorithm.calculate kva].
    unfold Algorithm.apparentPower. destruct (JS.strict_eq _ 1).
    - eapply fmag_mono; [eapply (fmag_div _ _ _ _ _ _ Prim2SF_1000)|].
      + eapply fmag_mul; [exact HV|exact HI|lia].
      + lia.
      + lia.
    - eapply fmag_mono; [eapply (fmag_div _ _ _ _ _ _ Prim2SF_1000)|].
      + eapply fmag_mul; [eapply fmag_mul; [exact H3|exact HV|lia]|exact HI|lia].
      + lia.
      + lia. }
  assert (Hkw : fmag 86 (kw res)).
  { subst res. rewrite calculatePower_unfold in *.
    cbn [Algorithm.calculate kw kva] in *.
    eapply fmag_mono; [eapply fmag_mul; [exact Hkva|exact HP|lia]|lia]. }
  assert (Hadj : fmag 141 (adjustedPower res)).
  { subst res. rewrite calculatePower_unfold in *.
    cbn [Algorithm.calculate kw kva adjustedPower] in *.
    eapply fmag_mono; [eapply fmag_mul; [exact Hkw| |]|].
    - eapply (fmag_div _ _ _ _ _ _ Prim2SF_100); [exact HE|lia].
    - lia.
    - lia. }
  assert (Hd : fmag 175 (JS.Math_pow2 (kva res) - JS.Math_pow2 (kw res))%float).
  { eapply fmag_mono; [eapply (fmag_sub 173)|lia]; [| |lia].
    - eapply fmag_mono; [eapply fmag_mul; [exact Hkva|exact Hkva|lia]|lia].
    - eapply fmag_mono; [eapply fmag_mul; [exact Hkw|exact Hkw|lia]|lia]. }
  destruct (fmag_clamped_sqrt _ _ Hd ltac:(lia)) as [Hq Hq0].
  assert (Hkvar : kvar res
                  = JS.Math_sqrt (JS.Math_max 0
                      (JS.Math_pow2 (kva res) - JS.Math_pow2 (kw res))%float)).
  { subst res. by rewrite calculatePower_unfold. }
  rewrite Hkvar. done.
Qed.

Lemma validates_values_in_range (f : Input.ParsedFields) :
  validates f = true →
  let v := getInputValues f in
  above_upto 0 1000000 (Input.voltage v) ∧
  above_upto 0 100000 (Input.current v) ∧
  between 0.5 1 (Input.powerFactor v) ∧
  above_upto 0 100 (Input.efficiency v).
Proof.
  intros Hv v.
  destruct (getInputValues_truthy f) as (Hp & He & _). fold v in Hp, He.
  apply truthy_spec in Hp as [Hp _]. apply truthy_spec in He as [He He0].
  unfold validates in Hv. fold v in Hv.
  rewrite isValid_violations, negb_true_iff in Hv.
  by apply violations_ranges in Hv.
Qed.

(** X20: for every input that passes validation, the apparent, real,
    adjusted and reactive power that [calculatePower] returns are finite
    numbers, never NaN or infinite, and the reactive power is at least
    0. *)
Theorem validated_figures_finite (f : Input.ParsedFields) :
  validates f = true →
  let v := getInputValues f in
  let res :=
    calculatePower (Input.voltage v) (Input.current v) (Input.phase v)
      (Input.powerFactor v) (Input.efficiency v) (Input.rate v) in
  Forall (λ x, is_finite x = true) (power_figures res) ∧
  (0 <=? kvar res)%float = true ∧
  updateCalculations f = displayResults res.
Proof.
  intros Hv v res.
  destruct (validates_values_in_range f Hv) as (HV & HI & HP & HE).
  destruct (figures_in_range _ _ (Input.phase v) _ _ (Input.rate v) HV HI HP HE)
    as (H1 & H2 & H3 & H4 & H5).
  split; [|split; [done|]].
  - repeat constructor; by eapply mag_le_is_finite.
  - subst res v. unfold updateCalculations. unfold validates in Hv.
    cbv zeta in *. by rewrite Hv.
Qed.

Lemma validated_figures_finite_witness :
  let res := calculatePower 480 100 3 0.9 90 0.12 in
  Forall (λ x, is_finite x = true) (power_figures res) ∧
  (0 <=? kvar res)%float = true.
Proof.
  destruct (validated_figures_finite
              {| Input.voltageInput := 480; Input.currentInput := 100;
                 Input.phaseSelect := 3; Input.powerFactorInput := 0.9;
                 Input.efficiencyInput := 90;
                 Input.electricityRateInput := 0.12 |}) as (H1 & H2 & _).
  - reflexivity.
  - split; [exact H1|exact H2].
Defined.

(** X21: the rate is not validated, and the costs depend on it: for
    inputs that pass validation the four costs are finite when the rate
    is within the range of the unused rate rule, from 0 to 10, and the
    cost per hour is not finite when the rate is infinite. *)
Theorem validated_costs (f : Input.ParsedFields) :
  validates f = true →
  let v := getInputValues f in
  let res :=
    calculatePower (Input.voltage v) (Input.current v) (Input.phase v)
      (Input.powerFactor v) (Input.efficiency v) (Input.rate v) in
  (between (Rule.min VALIDATION_RULES.rate) (Rule.max VALIDATION_RULES.rate)
     (Input.rate v) →
   Forall (λ x, is_finite x = true) (costs res)) ∧
  (is_infinity (Input.rate v) = true → is_finite (costPerHour res) = false).
Proof.
  intros Hv v res.
  destruct (validates_values_in_range f Hv) as (HV & HI & HP & HE).
  destruct (figures_in_range _ _ (Input.phase v) _ _ (Input.rate v) HV HI HP HE)
    as (_ & _ & Hadj & _).
  fold v res in Hadj.
  assert (Hcost : costPerHour res = (adjustedPower res * Input.rate v)%float
                  ∧ costPerDay res = (costPerHour res * 24)%float
                  ∧ costPerMonth res = (costPerDay res * 30)%float
                  ∧ costPerYear res = (costPerDay res * 365)%float).
  { subst res. by rewrite calculatePower_unfold. }
  destruct Hcost as (Hh & Hd & Hm & Hy). split.
  - intros Hr. cbn [Rule.min Rule.max VALIDATION_RULES.rate] in Hr.
    destruct (getInputValues_truthy f) as (_ & _ & [_ Hr0]%truthy_spec).
    fold v in Hr0.
    assert (Hr' : fmag 4 (Input.rate v)).
    { apply (fmag_range _ _ _ _ Prim2SF_10). destruct Hr as [H0 H1].
      split; [by apply ltb_0_of_leb|done]. }
    assert (H1 : fmag 146 (costPerHour res)).
    { rewrite Hh. eapply fmag_mono; [eapply fmag_mul; [exact Hadj|exact Hr'|lia]|lia]. }
    assert (H2 : fmag 152 (costPerDay res)).
    { rewrite Hd. eapply fmag_mono; [eapply fmag_mul; [exact H1|exact fmag_24|lia]|lia]. }
    assert (H3 : fmag 158 (costPerMonth res)).
    { rewrite Hm. eapply fmag_mono; [eapply fmag_mul; [exact H2|exact fmag_30|lia]|lia]. }
    assert (H4 : fmag 162 (costPerYear res)).
    { rewrite Hy. eapply fmag_mono; [eapply fmag_mul; [exact H2|exact fmag_365|lia]|lia]. }
    repeat constructor; by eapply mag_le_is_finite.
  - rewrite Hh, is_infinity_Prim2SF, is_finite_Prim2SF, FloatAxioms.mul_spec.
    unfold fmag in Hadj.
    destruct (Prim2SF (adjustedPower res)) as [s|s| |s m e]; try done;
      by destruct (Prim2SF (Input.rate v)).
Qed.

Lemma validated_costs_witness :
  let res := calculatePower 480 100 3 0.9 90 infinity in
  is_finite (costPerHour res) = false ∧
  Forall (λ x, is_finite x = true) (costs (calculatePower 480 100 3 0.9 90 0.12)).
Proof.
  split.
  - apply (validated_costs
              {| Input.voltageInput := 480; Input.currentInput := 100;
                 Input.phaseSelect := 3; Input.powerFactorInput := 0.9;
                 Input.efficiencyInput := 90;
                 Input.electricityRateInput := infinity |}); reflexivity.
  - apply (validated_costs
              {| Input.voltageInput := 480; Input.currentInput := 100;
                 Input.phaseSelect := 3; Input.powerFactorInput := 0.9;
                 Input.efficiencyInput := 90;
                 Input.electricityRateInput := 0.12 |}); [reflexivity|].
    split; reflexivity.
Defined.

(** X22: in every reachable state the power figures stored with each
    listed entry are finite numbers and its stored reactive power is at
    least 0. *)
Theorem history_figures_finite (ls : localStorage) (h : list HistoryItem) :
  reachable ls → getHistory ls = Some h →
  Forall (λ item,
            Forall (λ x, is_finite x = true)
              (power_figures (History.result item)) ∧
            (0 <=? kvar (History.result item))%float = true) h.
Proof.
  intros (h' & Hh' & _ & Hs)%reachable_sound Hh.
  rewrite Hh in Hh'. injection Hh' as <-.
  eapply Forall_impl; [exact Hs|].
  intros item ((HV & HI & HP & HE & _) & Hc & _). rewrite Hc.
  destruct (figures_in_range _ _ (History.phase item) _ _ (History.rate item)
              HV HI HP HE) as (H1 & H2 & H3 & H4 & H5).
  split; [|done]. repeat constructor; by eapply mag_le_is_finite.
Qed.

Lemma history_figures_finite_witness :
  Forall (λ item, (0 <=? kvar (History.result item))%float = true)
    [item_of (sample_request 1)].
Proof.
  eapply Forall_impl.
  - apply (history_figures_finite
             (<["calculationHistory" := Json [item_of (sample_request 1)]]> ∅)).
    + eapply (reachable_step (Save sample_fields 1 1) ∅).
      * apply reachable_fresh. reflexivity.
      * reflexivity.
    + reflexivity.
  - intros item [_ H]. exact H.
Defined.

(** ** Default substitution, through validation, calculation and saving *)

Lemma runs_with_values (f : Input.ParsedFields) :
  let v := getInputValues f in
  runs_with f (Input.powerFactor v) (Input.efficiency v) (Input.rate v).
Proof.
  intros v. unfold runs_with. split; [done|].
  unfold updateCalculations. fold v. by destruct (isValid _).
Qed.

Lemma stores_with_saved_item (f : Input.ParsedFields) (Q : HistoryItem → Prop) :
  (∀ t_id t_ts, Q (saved_item f t_id t_ts)) → stores_with f Q.
Proof.
  intros HQ t_id t_ts ls h Hh. split; intros Hv.
  - exists (setItem "calculationHistory"
              (JSON_stringify (take 10 (saved_item f t_id t_ts :: h))) ls),
      (saved_item f t_id t_ts).
    split; [by apply saveCalculation_valid|].
    split; [by rewrite getHistory_setItem|]. split; [done|apply HQ].
  - by apply saveCalculation_invalid.
Qed.

(** C5: an optional field that parses to zero, or is absent, is replaced
    by its default before validation and calculation: validation, the
    calculation and the display run on 0.12, 100 or 0.9, a save that
    passes validation stores an entry with that value and the figures
    calculated from it, and a zero gives the same display and the same
    stored record as an absent field.  The defaults raise no validation
    error: with all three fields absent or zero and voltage and current
    in range, the result is shown for 0.9, 100 and 0.12. *)
Theorem default_substitution (f : Input.ParsedFields) :
  let v := getInputValues f in
  let V := Input.voltage v in
  let A := Input.current v in
  let p := Input.phase v in
  let PF := Input.powerFactor v in
  let E := Input.efficiency v in
  let R := Input.rate v in
  let falsy x := parses_to_zero x ∨ absent x in
  let same_as g :=
    getInputValues f = getInputValues g ∧
    updateCalculations f = updateCalculations g ∧
    ∀ t_id t_ts ls,
      saveCalculation f t_id t_ts ls = saveCalculation g t_id t_ts ls in
  (falsy (Input.electricityRateInput f) →
   R = 0.12%float ∧ same_as (with_rate f nan) ∧
   runs_with f PF E 0.12 ∧
   stores_with f (λ item,
     History.rate item = 0.12%float ∧
     costs (History.result item) = costs (calculatePower V A p PF E 0.12))) ∧
  (falsy (Input.efficiencyInput f) →
   E = 100%float ∧ same_as (with_efficiency f nan) ∧
   Violation.efficiency E = false ∧
   runs_with f PF 100 R ∧
   stores_with f (λ item,
     History.efficiency item = 100%float ∧
     adjustedPower (History.result item)
     = adjustedPower (calculatePower V A p PF 100 R))) ∧
  (falsy (Input.powerFactorInput f) →
   PF = 0.9%float ∧ same_as (with_powerFactor f nan) ∧
   Violation.powerFactor PF = false ∧
   runs_with f 0.9 E R ∧
   stores_with f (λ item,
     History.powerFactor item = 0.9%float ∧
     pf (History.result item) = 0.9%float ∧
     kw (History.result item) = kw (calculatePower V A p 0.9 E R))) ∧
  (falsy (Input.powerFactorInput f) → falsy (Input.efficiencyInput f) →
   falsy (Input.electricityRateInput f) →
   above_upto 0 1000000 V → above_upto 0 100000 A →
   validates f = true ∧
   updateCalculations f = displayResults (calculatePower V A p 0.9 100 0.12) ∧
   stores_with f (λ item,
     History.powerFactor item = 0.9%float ∧
     History.efficiency item = 100%float ∧
     History.rate item = 0.12%float ∧
     power_figures (History.result item)
     = power_figures (calculatePower V A p 0.9 100 0.12) ∧
     costs (History.result item)
     = costs (calculatePower V A p 0.9 100 0.12))).
Proof.
  intros v V A p PF E R falsy same_as.
  assert (Hsame : ∀ g, getInputValues f = getInputValues g → same_as g).
  { intros g Hg. split; [done|]. split; [by apply updateCalculations_ext|].
    intros. by apply saveCalculation_ext. }
  pose proof (runs_with_values f) as Hruns. fold v PF E R in Hruns.
  assert (Hrate : falsy (Input.electricityRateInput f) → R = 0.12%float)
    by (intros H; by apply or_default_falsy).
  assert (Heff : falsy (Input.efficiencyInput f) → E = 100%float)
    by (intros H; by apply or_default_falsy).
  assert (Hpf : falsy (Input.powerFactorInput f) → PF = 0.9%float)
    by (intros H; by apply or_default_falsy).
  split; [|split; [|split]].
  - intros Hr%Hrate. split; [done|]. split.
    { apply Hsame. subst R v. unfold getInputValues in *. cbn in *. by rewrite Hr. }
    rewrite <-Hr. split; [done|].
    apply stores_with_saved_item. by intros.
  - intros He%Heff. split; [done|]. split.
    { apply Hsame. subst E v. unfold getInputValues in *. cbn in *. by rewrite He. }
    split; [by rewrite He|].
    rewrite <-He. split; [done|].
    apply stores_with_saved_item. by intros.
  - intros Hp%Hpf. split; [done|]. split.
    { apply Hsame. subst PF v. unfold getInputValues in *. cbn in *. by rewrite Hp. }
    split; [by rewrite Hp|].
    rewrite <-Hp. split; [done|].
    apply stores_with_saved_item. intros t_id t_ts.
    split; [done|]. split; [|done].
    unfold saved_item. cbn [History.result]. by rewrite calculatePower_unfold.
  - intros Hp%Hpf He%Heff Hr%Hrate HV HA.
    assert (Hv : validates f = true).
    { destruct Hruns as [-> _].
      rewrite isValid_violations, negb_true_iff.
      assert (Hnp : JS.isNaN PF = false) by (by rewrite Hp).
      assert (Hne : JS.isNaN E = false) by (by rewrite He).
      assert (He0 : (E =? 0)%float = false) by (by rewrite He).
      apply (proj2 (violations_ranges V A PF E Hnp Hne He0)).
      split; [done|]. split; [done|].
      rewrite Hp, He. by repeat split. }
    split; [done|]. rewrite <-Hp, <-He, <-Hr. split.
    + destruct Hruns as [Hval ->]. by rewrite <-Hval, Hv.
    + apply stores_with_saved_item. by intros.
Qed.

Lemma default_substitution_witness :
  let f := {| Input.voltageInput := 120; Input.currentInput := 10;
              Input.phaseSelect := 1; Input.powerFactorInput := 1;
              Input.efficiencyInput := 100;
              Input.electricityRateInput := 0 |} in
  Input.rate (getInputValues f) = 0.12%float ∧
  updateCalculations f = updateCalculations (with_rate f nan) ∧
  updateCalculations f
  = displayResults (calculatePower 120 10 1 1 100 0.12) ∧
  ∃ ls' item,
    saveCalculation f 7 7 ∅ = Some ls' ∧
    getHistory ls' = Some [item] ∧ History.rate item = 0.12%float.
Proof.
  intros f.
  destruct (default_substitution f) as (Hrate & _).
  destruct Hrate as (H1 & (_ & H2 & _) & (_ & H3) & H4); [left; reflexivity|].
  split; [exact H1|]. split; [exact H2|]. split; [rewrite H3; reflexivity|].
  assert (Hempty : getHistory (∅ : localStorage) = Some []) by reflexivity.
  destruct (H4 7%Z 7%Z ∅ [] Hempty) as [Hvalid _].
  assert (Hv : validates f = true) by reflexivity.
  destruct (Hvalid Hv) as (ls' & item & Hs & Hh & _ & Hq & _).
  exists ls', item. split; [exact Hs|]. split; [exact Hh|exact Hq].
Defined.
